(** * Apartment chatbot: query router, filter extraction and response envelope

    A shallow embedding of [app/data_loader.py] and [app/chatbot.py].

    Conventions of the embedding.
    - A Python [str] is a [string]; queries are taken as ASCII text:
      [lower] folds A-Z only and [is_space] knows the ASCII blanks.
    - A Python [dict] with string keys whose order is irrelevant (a stored
      record, a document's metadata, a Mongo filter) is a [gmap string _];
      [location_map], whose iteration order decides the answer, is an
      insertion-ordered association list.
    - A Python [float] is a rational of [Q]; [py_round] rounds the exact
      value half-to-even.
    - Exceptions are explicit: a computation that may raise returns a
      [result]; [try: ... except: pass] is [try_pass].
    - The document store, the vector index and the text rendering of values
      inside f-strings are collaborators bundled in an [Env]. *)

From Stdlib Require Import ZArith QArith Qround Ascii String DecimalString.
From stdpp Require Import gmap strings list fin_maps sorting.

Local Open Scope Z_scope.
Local Open Scope nat_scope.

(** ** Python string operations *)

Module PyStr.

(** [s.startswith(t)] *)
Fixpoint startswith (s t : string) {struct t} : bool :=
  match t, s with
  | EmptyString, _ => true
  | String _ _, EmptyString => false
  | String b t', String a s' => Ascii.eqb a b && startswith s' t'
  end.

(** [t in s] on strings: [t] occurs in [s] as a contiguous substring. *)
Fixpoint str_in (t s : string) : bool :=
  startswith s t ||
  match s with
  | EmptyString => false
  | String _ s' => str_in t s'
  end.

Definition lower_char (c : ascii) : ascii :=
  let n := nat_of_ascii c in
  if (65 <=? n) && (n <=? 90) then ascii_of_nat (n + 32) else c.

(** [s.lower()], on ASCII text *)
Fixpoint lower (s : string) : string :=
  match s with
  | EmptyString => EmptyString
  | String c s' => String (lower_char c) (lower s')
  end.

(** The characters [str.strip()] removes and [\s] matches, among the
    ASCII characters. *)
Definition is_space (c : ascii) : bool :=
  let n := nat_of_ascii c in
  ((9 <=? n) && (n <=? 13)) || ((28 <=? n) && (n <=? 32)).

(** [\d], among the ASCII characters *)
Definition is_digit (c : ascii) : bool :=
  let n := nat_of_ascii c in
  (48 <=? n) && (n <=? 57).

Definition is_empty (s : string) : bool :=
  match s with EmptyString => true | String _ _ => false end.

Fixpoint lstrip (s : string) : string :=
  match s with
  | EmptyString => EmptyString
  | String c s' => if is_space c then lstrip s' else s
  end.

Fixpoint rstrip (s : string) : string :=
  match s with
  | EmptyString => EmptyString
  | String c s' =>
      let r := rstrip s' in
      if is_space c && is_empty r then EmptyString else String c r
  end.

(** [s.strip()] *)
Definition strip (s : string) : string := rstrip (lstrip s).

(** [s.split(c)] for a one-character separator: never an empty list. *)
Fixpoint split (c : ascii) (s : string) : list string :=
  match s with
  | EmptyString => [EmptyString]
  | String a s' =>
      if Ascii.eqb a c then EmptyString :: split c s'
      else match split c s' with
           | h :: t => String a h :: t
           | [] => [String a EmptyString]
           end
  end.

(** [sep.join(l)] *)
Definition join (sep : string) (l : list string) : string :=
  String.concat sep l.

(** [s[n:]] *)
Fixpoint drop_chars (n : nat) (s : string) : string :=
  match n, s with
  | O, _ => s
  | S n', String _ s' => drop_chars n' s'
  | S _, EmptyString => EmptyString
  end.

(** The longest run of decimal digits at the head of [s]: what a greedy
    [\d+] consumes there. *)
Fixpoint digits_prefix (s : string) : string :=
  match s with
  | String c s' => if is_digit c then String c (digits_prefix s') else EmptyString
  | EmptyString => EmptyString
  end.

(** A phrase that is not empty and neither starts nor ends with a blank:
    stripping the text around it cannot cut into it. *)
Definition solid (t : string) : bool :=
  match t with
  | EmptyString => false
  | String c _ => negb (is_space c)
  end && String.eqb (rstrip t) t.

(** Text made of ASCII characters only. On such text [lower], [is_space]
    and [is_digit] are [str.lower()], the blanks of [str.strip()] and of
    [\s], and the digits of [\d] and [int()]; on other text Python also
    folds, strips and reads the non-ASCII letters, blanks and digits. *)
Fixpoint is_ascii (s : string) : bool :=
  match s with
  | EmptyString => true
  | String c s' => (nat_of_ascii c <? 128) && is_ascii s'
  end.

Definition all_ascii (l : list string) : bool := forallb is_ascii l.

End PyStr.

Import PyStr.

(** ** Exceptions *)

Inductive exn : Type :=
| AttributeError
| ValueError
| TypeError
| KeyError (k : string)
| StoreUnavailable.

Inductive result (A : Type) : Type :=
| Ok (a : A)
| Raise (e : exn).

Arguments Ok {A} a.
Arguments Raise {A} e.

#[global] Instance result_ret : MRet result := fun A a => Ok a.

#[global] Instance result_bind : MBind result := fun A B k c =>
  match c with
  | Ok a => k a
  | Raise e => Raise e
  end.

(** [try: body  except: pass], where [body] yields the updated state and
    [st] is the state the block started from. *)
Definition try_pass {A : Type} (st : A) (body : result A) : A :=
  match body with
  | Ok st' => st'
  | Raise _ => st
  end.

(** ** Python values *)

Inductive pyval : Type :=
| PNone
| PInt (n : Z)
| PFloat (x : Q)
| PStr (s : string)
| PList (l : list string).

(** A value stored under a key of a response item: a plain value or a
    nested dict (the [details] of a record item). *)
Inductive pyobj : Type :=
| PVal (v : pyval)
| PDict (d : gmap string pyval).

(** [a == b] *)
Definition py_eqb (a b : pyval) : bool :=
  match a, b with
  | PNone, PNone => true
  | PInt m, PInt n => Z.eqb m n
  | PInt m, PFloat y => Qeq_bool (inject_Z m) y
  | PFloat x, PInt n => Qeq_bool x (inject_Z n)
  | PFloat x, PFloat y => Qeq_bool x y
  | PStr s, PStr t => String.eqb s t
  | PList l, PList k => bool_decide (l = k)
  | _, _ => false
  end.

(** [d.get(k, dflt)] *)
Definition get {V : Type} (d : gmap string V) (k : string) (dflt : V) : V :=
  default dflt (d !! k).

(** [d[k]] *)
Definition getitem {V : Type} (d : gmap string V) (k : string) : result V :=
  match d !! k with
  | Some v => Ok v
  | None => Raise (KeyError k)
  end.

(** Truth value of [location], which is [None] or a string. *)
Definition truthy (o : option string) : bool :=
  match o with
  | Some s => negb (is_empty s)
  | None => false
  end.

Definition digit_value (c : ascii) : Z := Z.of_nat (nat_of_ascii c - 48).

Fixpoint int_of_digits (acc : Z) (s : string) : Z :=
  match s with
  | EmptyString => acc
  | String c s' => int_of_digits (10 * acc + digit_value c)%Z s'
  end.

Fixpoint all_digits (s : string) : bool :=
  match s with
  | EmptyString => true
  | String c s' => is_digit c && all_digits s'
  end.

(** CPython's default [sys.get_int_max_str_digits()]. *)
Definition int_max_str_digits : nat := 4300.

(** [int(s)] on the text a digit pattern captured: [ValueError] on an empty
    or non-numeric text and on one longer than the interpreter's limit. *)
Definition py_int (s : string) : result Z :=
  if is_empty s || negb (all_digits s) then Raise ValueError
  else if int_max_str_digits <? String.length s then Raise ValueError
  else Ok (int_of_digits 0%Z s).

(** [round(x, ndigits)] on the exact value: the nearest multiple of
    [10^-ndigits], ties going to the even one. *)
Definition round_half_even (x : Q) : Z :=
  let fl := Qfloor x in
  match Qcompare (x - inject_Z fl) (1 # 2) with
  | Lt => fl
  | Gt => (fl + 1)%Z
  | Eq => if Z.even fl then fl else (fl + 1)%Z
  end.

Definition py_round (x : Q) (ndigits : nat) : Q :=
  let scale := (10 ^ Z.of_nat ndigits)%Z in
  Qred (Qmake (round_half_even (x * inject_Z scale)) (Z.to_pos scale)).

(** ** Regular expressions of the source *)

(** A match object of a pattern with two groups. *)
Record re_match : Type := ReMatch { group1 : string; group2 : string }.

(** [m.group(2)] where [m] is the outcome of [re.search]: on [None] the
    attribute access raises. *)
Definition group_2 (m : option re_match) : result string :=
  match m with
  | Some g => Ok (group2 g)
  | None => Raise AttributeError
  end.

(** [re.search(r"(a1|a2|...)", s)] as a truth value, for literal
    alternatives: some alternative occurs in [s]. *)
Definition re_search_alt (alts : list string) (s : string) : bool :=
  existsb (fun a => str_in a s) alts.

(** [(\d)\s?bhk] matched at the head of [s]; yields group 1. The greedy
    [\s?] first takes a blank; when ["bhk"] does not follow, it gives the
    blank back and ["bhk"] must follow the digit directly. *)
Definition match_bhk_here (s : string) : option string :=
  match s with
  | String d r =>
      if is_digit d then
        let with_blank :=
          match r with
          | String w r' => is_space w && startswith r' "bhk"
          | EmptyString => false
          end in
        if with_blank || startswith r "bhk" then Some (String d EmptyString)
        else None
      else None
  | EmptyString => None
  end.

(** [re.search(r'(\d)\s?bhk', s)]: the leftmost position that matches. *)
Fixpoint re_search_bhk (s : string) : option string :=
  match match_bhk_here s with
  | Some d => Some d
  | None =>
      match s with
      | String _ s' => re_search_bhk s'
      | EmptyString => None
      end
  end.

(** [\s?(\d+)] at the head of [r]: the digits after one optional blank. *)
Definition match_amount_here (r : string) : option string :=
  let after_blank :=
    match r with
    | String w r' => if is_space w then digits_prefix r' else EmptyString
    | EmptyString => EmptyString
    end in
  if negb (is_empty after_blank) then Some after_blank
  else
    let direct := digits_prefix r in
    if negb (is_empty direct) then Some direct else None.

(** [(w1|w2|...)\s?(\d+)] matched at the head of [s]: the alternatives are
    tried in order, the next one when the rest does not match. *)
Fixpoint match_price_here (words : list string) (s : string) : option re_match :=
  match words with
  | [] => None
  | w :: words' =>
      let next := match_price_here words' s in
      if startswith s w then
        match match_amount_here (drop_chars (String.length w) s) with
        | Some digits => Some (ReMatch w digits)
        | None => next
        end
      else next
  end.

(** [re.search(r'(w1|w2)\s?(\d+)', s)] *)
Fixpoint re_search_price (words : list string) (s : string) : option re_match :=
  match match_price_here words s with
  | Some m => Some m
  | None =>
      match s with
      | String _ s' => re_search_price words s'
      | EmptyString => None
      end
  end.

(** ** Location extraction *)

(** [d[k] = v] on an insertion-ordered dict: a present key keeps its place
    and takes the new value, a new key goes last. *)
Fixpoint dict_set (k v : string) (m : list (string * string)) : list (string * string) :=
  match m with
  | [] => [(k, v)]
  | (k', v') :: m' =>
      if String.eqb k' k then (k', v) :: m' else (k', v') :: dict_set k v m'
  end.

(** [{loc.lower(): loc for loc in available_locations}] *)
Definition location_map (available_locations : list string) : list (string * string) :=
  fold_left (fun m loc => dict_set (lower loc) loc m) available_locations [].

(** [for loc_lower, loc_standard in location_map.items():
       if test(loc_lower): return loc_standard] *)
Fixpoint first_where (test : string → bool) (m : list (string * string)) : option string :=
  match m with
  | [] => None
  | (loc_lower, loc_standard) :: m' =>
      if test loc_lower then Some loc_standard else first_where test m'
  end.

(** [loc_lower.split(",")[0].strip()] *)
Definition city_part (loc_lower : string) : string :=
  strip (hd EmptyString (split "," loc_lower)).

Definition city_aliases : list (string * list string) :=
  [ ("pune", ["pune"; "puna"]);
    ("mumbai", ["mumbai"; "bombay"]);
    ("bangalore", ["bangalore"; "bengaluru"]);
    ("delhi", ["delhi"; "new delhi"; "dilli"]) ].

(** The two nested alias loops, as one pass over the aliases in the order
    the loops visit them. An alias found in the query but in no location
    lets the loops go on. *)
Fixpoint alias_loop (query : string) (m : list (string * string))
    (aliases : list string) : option string :=
  match aliases with
  | [] => None
  | alias :: rest =>
      if str_in alias query then
        match first_where (str_in alias) m with
        | Some loc_standard => Some loc_standard
        | None => alias_loop query m rest
        end
      else alias_loop query m rest
  end.

Definition extract_location_from_query (query : string)
    (available_locations : list string) : option string :=
  let query := lower query in
  let location_map := location_map available_locations in
  match first_where (fun loc_lower => str_in loc_lower query) location_map with
  | Some loc_standard => Some loc_standard
  | None =>
      match first_where (fun loc_lower => str_in (city_part loc_lower) query)
                        location_map with
      | Some loc_standard => Some loc_standard
      | None => alias_loop query location_map (concat (map snd city_aliases))
      end
  end.

(** The three ways a known location can answer a query, in the order the
    resolver tries them: its whole name occurs in the query, its city part
    does, or an alias found in the query occurs in its name. *)
Definition full_match (query loc : string) : bool :=
  str_in (lower loc) (lower query).

Definition city_match (query loc : string) : bool :=
  str_in (city_part (lower loc)) (lower query).

Definition alias_match (query loc : string) : bool :=
  existsb (fun alias => str_in alias (lower query) && str_in alias (lower loc))
          (concat (map snd city_aliases)).

(** ** Intent classification *)

Definition greetings : list string :=
  ["hi"; "hello"; "hey"; "how are you"; "good morning"; "good evening"].

Definition filter_words : list string :=
  ["with"; "in"; "under"; "above"; "near"; "bhk"; "bedroom"; "budget"].

Definition price_desc_phrases : list string :=
  ["most expensive"; "highest price"; "most costly"].
Definition price_asc_phrases : list string :=
  ["cheapest"; "lowest price"; "most affordable"].
Definition area_desc_phrases : list string := ["biggest"; "largest"].
Definition area_asc_phrases : list string := ["smallest"; "tiniest"].

(** All the superlative phrases that select a sort intent. *)
Definition sort_phrases : list string :=
  price_desc_phrases ++ price_asc_phrases ++ area_desc_phrases ++ area_asc_phrases.

Definition classify_user_query (query : string)
    (available_locations : list string) : string :=
  let query := strip (lower query) in
  if existsb (fun greet => str_in greet query) greetings then "greeting"
  else
    let location := extract_location_from_query query available_locations in
    if re_search_alt price_desc_phrases query then
      if truthy location then "sort_by_price_desc_location" else "sort_by_price_desc"
    else if re_search_alt price_asc_phrases query then
      if truthy location then "sort_by_price_asc_location" else "sort_by_price_asc"
    else if re_search_alt area_desc_phrases query then
      if truthy location then "sort_by_area_desc_location" else "sort_by_area_desc"
    else if re_search_alt area_asc_phrases query then
      if truthy location then "sort_by_area_asc_location" else "sort_by_area_asc"
    else if existsb (fun word => str_in word query) filter_words then "filter_search"
    else "semantic_search".

(** ** Filter extraction *)

(** The value of one key of a Mongo filter: an exact value, or a dict of
    operators such as [{"$lte": 5000}] or [{"$all": [...]}]. *)
Inductive fval : Type :=
| FExact (v : pyval)
| FOps (ops : gmap string pyval).

(** [int(re.search(r'(w1|w2)\s?(\d+)', query).group(2))] *)
Definition price_amount (words : list string) (query : string) : result Z :=
  digits ← group_2 (re_search_price words query);
  py_int digits.

(** The body of one [try] block of the price rule:
    [amount = int(re.search(...).group(2))]
    [filter_["price"] = {op: amount}] *)
Definition price_clause (words : list string) (op : string) (query : string)
    (filter_ : gmap string fval) : result (gmap string fval) :=
  amount ← price_amount words query;
  mret (<["price" := FOps {[ op := PInt amount ]}]> filter_).

(** The amenities the keywords of the query ask for, in the order the
    source appends them. *)
Definition wanted_amenities (query : string) : list string :=
  let amenities : list string := [] in
  let amenities := if str_in "pool" query then amenities ++ ["Swimming Pool"] else amenities in
  let amenities := if str_in "gym" query then amenities ++ ["Gym"] else amenities in
  let amenities := if str_in "parking" query then amenities ++ ["Parking"] else amenities in
  amenities.

Definition has_ceiling_word (query : string) : bool :=
  str_in "under" query || str_in "below" query.

Definition has_floor_word (query : string) : bool :=
  str_in "above" query || str_in "over" query.

(** The filter holds the constraint [field op arg], as in
    [{"price": {"$lte": 5000}}]. *)
Definition has_constraint (filter_ : gmap string fval) (field op : string)
    (arg : pyval) : Prop :=
  ∃ ops, filter_ !! field = Some (FOps ops) ∧ ops !! op = Some arg.

(** The filter [filter_based_search] hands to the store. *)
Definition build_filter (query : string) (available_locations : list string)
    : result (gmap string fval) :=
  let query := lower query in
  let filter_ : gmap string fval := ∅ in
  filter_ ← match re_search_bhk query with
            | Some g1 =>
                n ← py_int g1;
                mret (<["bedrooms" := FExact (PInt n)]> filter_)
            | None => mret filter_
            end;
  let location := extract_location_from_query query available_locations in
  let filter_ :=
    if truthy location
    then <["location" := FExact (PStr (default EmptyString location))]> filter_
    else filter_ in
  let filter_ :=
    if str_in "under" query || str_in "below" query then
      try_pass filter_ (price_clause ["under"; "below"] "$lte" query filter_)
    else if str_in "above" query || str_in "over" query then
      try_pass filter_ (price_clause ["above"; "over"] "$gte" query filter_)
    else filter_ in
  let amenities := wanted_amenities query in
  let filter_ :=
    match amenities with
    | [] => filter_
    | _ :: _ => <["amenities" := FOps {[ "$all" := PList amenities ]}]> filter_
    end in
  mret filter_.

(** ** Collaborators *)

(** A LangChain [Document]. *)
Record Document : Type := { page_content : string; metadata : gmap string pyval }.

(** What the core calls and does not implement: the rendering of a value
    inside an f-string, the [apartments] collection and the vector store.
    Calls to the store and to the index may fail. *)
Record Env : Type := {
  (** [str(v)], as [f"{v}"] renders it *)
  py_str : pyval → string;
  (** [format(v, ".2f")] *)
  py_format_2f : pyval → result string;
  (** [float(s)] for a string [s] *)
  py_float_of_str : string → result Q;
  (** [collection.aggregate(pipeline)]: the [location] of each group, when
      the group has one *)
  aggregate_locations : result (list (option string));
  (** [collection.find(filter_, {"_id": 0})] *)
  find : gmap string fval → result (list (gmap string pyval));
  (** [collection.find(filter_, {"_id": 0}).sort(field, order).limit(n)] *)
  find_sort_limit :
    gmap string fval → string → Z → nat → result (list (gmap string pyval));
  (** [vectorstore.similarity_search_with_score(query, k=k)] *)
  similarity_search_with_score : string → nat → result (list (Document * Q))
}.

Definition rupee : string := "‚Çπ".
Definition glyph_house : string := "üè†".
Definition glyph_wave : string := "üëã".
Definition glyph_pin : string := "üìç".
Definition glyph_ruler : string := "üìè".
Definition glyph_money : string := "üí∞".
Definition glyph_bath : string := "üõÅ".
Definition glyph_lens : string := "üîç".
Definition glyph_spark : string := "‚ú®".

(** The escape [\n]. *)
Definition nl : string := String (ascii_of_nat 10) EmptyString.

Section Core.

Context (env : Env).

Definition get_unique_locations : result (list string) :=
  locations ← aggregate_locations env;
  mret (omap (M := list) (fun loc : option string => if truthy loc then loc else None)
             locations).

(** *** Documents of the vector index *)

Definition py_truthy (v : pyval) : bool :=
  match v with
  | PNone => false
  | PInt n => negb (Z.eqb n 0)
  | PFloat x => negb (Qeq_bool x 0)
  | PStr s => negb (is_empty s)
  | PList l => match l with [] => false | _ => true end
  end.

(** The characters of a string, as iterating over it yields them. *)
Fixpoint chars (s : string) : list string :=
  match s with
  | EmptyString => []
  | String c s' => String c EmptyString :: chars s'
  end.

(** [", ".join(v)] for the values of [pyval]: a list is joined, a string
    is iterated character by character, and [None] or a number, which is
    not iterable, raises. *)
Definition join_amenities (v : pyval) : result string :=
  match v with
  | PList l => Ok (join ", " l)
  | PStr s => Ok (join ", " (chars s))
  | _ => Raise TypeError
  end.

(** [location.split(",")[-1].strip().lower() if location else "unknown"] *)
Definition city_of (location : pyval) : result string :=
  if py_truthy location then
    match location with
    | PStr s => Ok (lower (strip (List.last (split "," s) EmptyString)))
    | _ => Raise AttributeError
    end
  else Ok "unknown".

(** One turn of the loop of [create_langchain_documents]. *)
Definition create_document (apartment : gmap string pyval) : result Document :=
  amenities ← join_amenities (get apartment "amenities" (PList []));
  let location := get apartment "location" (PStr "an unknown location") in
  let price := get apartment "price" (PStr "a negotiable price") in
  let bedrooms := get apartment "bedrooms" (PStr "?") in
  let area := get apartment "area_sqft" (PStr "unknown area") in
  let text :=
    "This is a " +:+ py_str env bedrooms +:+ " BHK apartment in "
      +:+ py_str env location +:+ ". "
      +:+ "It spans " +:+ py_str env area +:+ " sqft and is priced at "
      +:+ rupee +:+ py_str env price +:+ ". "
      +:+ "Key amenities include: " +:+ amenities +:+ "." in
  city ← city_of location;
  let metadata : gmap string pyval :=
    <["bedrooms" := bedrooms]> (
    <["location" := location]> (
    <["price" := price]> (
    <["area_sqft" := area]> (
    <["amenities" := PStr amenities]> (
    <["city" := PStr city]> ∅))))) in
  mret {| page_content := text; metadata := metadata |}.

Fixpoint create_langchain_documents (data : list (gmap string pyval))
    : result (list Document) :=
  match data with
  | [] => mret []
  | apartment :: data' =>
      doc ← create_document apartment;
      documents ← create_langchain_documents data';
      mret (doc :: documents)
  end.

(** *** Semantic search *)

Definition dedup_key : Type := pyval * pyval * pyval * pyval.

(** [(meta['bedrooms'], meta['location'], meta['price'], meta['area_sqft'])] *)
Definition key_of (meta : gmap string pyval) : result dedup_key :=
  b ← getitem meta "bedrooms";
  l ← getitem meta "location";
  p ← getitem meta "price";
  a ← getitem meta "area_sqft";
  mret (b, l, p, a).

(** The fields every document of the index carries and the search reads. *)
Definition document_fields : list string :=
  ["bedrooms"; "location"; "price"; "area_sqft"; "amenities"].

Definition has_fields (meta : gmap string pyval) : Prop :=
  ∀ k, k ∈ document_fields → is_Some (meta !! k).

(** A stored record with the five fields of an apartment, its location a
    string and its amenities the list [amenities]. *)
Definition is_apartment (r : gmap string pyval) (amenities : list string) : Prop :=
  is_Some (r !! "bedrooms") ∧
  (∃ s, r !! "location" = Some (PStr s)) ∧
  is_Some (r !! "price") ∧
  is_Some (r !! "area_sqft") ∧
  r !! "amenities" = Some (PList amenities).

(** Equality of two key tuples. *)
Definition key_eqb (k1 k2 : dedup_key) : bool :=
  let '(b1, l1, p1, a1) := k1 in
  let '(b2, l2, p2, a2) := k2 in
  py_eqb b1 b2 && py_eqb l1 l2 && py_eqb p1 p2 && py_eqb a1 a2.

(** [key in unique] *)
Definition key_in (key : dedup_key) (unique : list dedup_key) : bool :=
  existsb (key_eqb key) unique.

(** The two assignments made to [meta] when its key is new. *)
Definition annotate (meta : gmap string pyval) (score : Q)
    : result (gmap string pyval) :=
  let meta := <["similarity_score" := PFloat (py_round score 4)]> meta in
  bedrooms ← getitem meta "bedrooms";
  location ← getitem meta "location";
  area ← getitem meta "area_sqft";
  price ← getitem meta "price";
  amenities ← getitem meta "amenities";
  mret (<["summary" := PStr (
          glyph_house +:+ " A " +:+ py_str env bedrooms +:+ " BHK apartment in "
            +:+ py_str env location +:+ " spanning " +:+ py_str env area
            +:+ " sqft, " +:+ "available at " +:+ rupee +:+ py_str env price
            +:+ ". Amenities include " +:+ py_str env amenities +:+ ".")]> meta).

(** A neighbour and the item emitted for it. *)
Definition emitted (p : Document * Q) (item : gmap string pyval) : Prop :=
  annotate (metadata p.1) p.2 = Ok item.

(** The keys of [ks], read in order, are each new with respect to [unique]
    and to the keys before them. *)
Fixpoint fresh_keys (unique : list dedup_key) (ks : list (result dedup_key)) : Prop :=
  match ks with
  | [] => True
  | Ok k :: ks' => key_in k unique = false ∧ fresh_keys (k :: unique) ks'
  | Raise _ :: _ => False
  end.

(** The loop over the neighbours; [unique] and [filtered] are its two
    accumulators, [filtered] in emission order. *)
Fixpoint dedup_loop (results : list (Document * Q)) (top_k : nat)
    (unique : list dedup_key) (filtered : list (gmap string pyval))
    : result (list (gmap string pyval)) :=
  match results with
  | [] => mret filtered
  | (doc, score) :: rest =>
      let meta := metadata doc in
      key ← key_of meta;
      st ← (if key_in key unique then mret (unique, filtered)
            else
              item ← annotate meta score;
              mret (key :: unique, filtered ++ [item]));
      let '(unique, filtered) := st in
      if top_k <=? length filtered then mret filtered
      else dedup_loop rest top_k unique filtered
  end.

Definition chromadb_semantic_search (query : string) (top_k : nat)
    : result (list (gmap string pyval)) :=
  results ← similarity_search_with_score env query (top_k * 2);
  dedup_loop results top_k [] [].

(** *** Store searches *)

Definition filter_based_search (query : string)
    (available_locations : list string) : result (list (gmap string pyval)) :=
  filter_ ← build_filter query available_locations;
  find env filter_.

Definition handle_location_specific_sort (query : string) (sort_field : string)
    (sort_order : Z) (available_locations : list string) (top_k : nat)
    : result (list (gmap string pyval)) :=
  let location := extract_location_from_query query available_locations in
  let filter_ : gmap string fval := ∅ in
  let filter_ :=
    if truthy location
    then <["location" := FExact (PStr (default EmptyString location))]> filter_
    else filter_ in
  find_sort_limit env filter_ sort_field sort_order top_k.

(** *** The query handler *)

Definition greeting_summary : string :=
  glyph_wave +:+ " Hello! I'm your apartment search assistant. How can I help you find your perfect home today?".

Definition no_results_summary : string :=
  glyph_lens +:+ " I couldn't find any apartments matching your criteria. Try broadening your search or adjusting your filters.".

Definition greeting_item : gmap string pyobj :=
  <["summary" := PVal (PStr greeting_summary)]> (
  <["type" := PVal (PStr "greeting")]> ∅).

Definition no_results_item : gmap string pyobj :=
  <["summary" := PVal (PStr no_results_summary)]> (
  <["type" := PVal (PStr "no_results")]> ∅).

Definition header_item (header : string) : gmap string pyobj :=
  <["summary" := PVal (PStr (glyph_spark +:+ " " +:+ header))]> (
  <["type" := PVal (PStr "header")]> ∅).

(** The amenities line of a summary: a list is joined, anything else is
    rendered as it is, and a missing key reads ["None"]. *)
Definition amenities_text (item : gmap string pyval) : string :=
  match item !! "amenities" with
  | Some (PList l) => join ", " l
  | _ => py_str env (get item "amenities" (PStr "None"))
  end.

(** The [details] of a record item. *)
Definition details_of (item : gmap string pyval) : gmap string pyval :=
  <["bedrooms" := get item "bedrooms" PNone]> (
  <["location" := get item "location" PNone]> (
  <["price" := get item "price" PNone]> (
  <["area_sqft" := get item "area_sqft" PNone]> (
  <["amenities" := get item "amenities" PNone]> ∅)))).

(** One turn of the enrichment loop. *)
Definition enrich (item : gmap string pyval) : result (gmap string pyobj) :=
  let summary :=
    glyph_house +:+ " **" +:+ py_str env (get item "bedrooms" (PStr "?"))
      +:+ " BHK Apartment**" +:+ nl
      +:+ glyph_pin +:+ " **Location:** "
      +:+ py_str env (get item "location" (PStr "unknown location")) +:+ nl
      +:+ glyph_ruler +:+ " **Area:** "
      +:+ py_str env (get item "area_sqft" (PStr "?")) +:+ " sqft" +:+ nl
      +:+ glyph_money +:+ " **Price:** " +:+ rupee
      +:+ py_str env (get item "price" (PStr "?")) +:+ nl
      +:+ glyph_bath +:+ " **Amenities:** " +:+ amenities_text item +:+ nl in
  summary ←
    match item !! "similarity_score" with
    | Some score =>
        shown ← py_format_2f env score;
        mret (summary +:+ glyph_lens +:+ " **Relevance Score:** " +:+ shown)
    | None => mret summary
    end;
  mret (<["summary" := PVal (PStr summary)]> (
        <["details" := PDict (details_of item)]> ∅)).

Fixpoint enrich_all (results : list (gmap string pyval))
    : result (list (gmap string pyobj)) :=
  match results with
  | [] => mret []
  | item :: rest =>
      enriched_item ← enrich item;
      enriched_results ← enrich_all rest;
      mret (enriched_item :: enriched_results)
  end.

(** The retrieval strategy selected by [intent] (never ["greeting"]). *)
Definition retrieve (intent query : string) (available_locations : list string)
    (top_k : nat) : result (list (gmap string pyval)) :=
  if String.eqb intent "sort_by_price_desc_location" then
    handle_location_specific_sort query "price" (-1)%Z available_locations top_k
  else if String.eqb intent "sort_by_price_asc_location" then
    handle_location_specific_sort query "price" 1%Z available_locations top_k
  else if String.eqb intent "sort_by_area_desc_location" then
    handle_location_specific_sort query "area_sqft" (-1)%Z available_locations top_k
  else if String.eqb intent "sort_by_area_asc_location" then
    handle_location_specific_sort query "area_sqft" 1%Z available_locations top_k
  else if String.eqb intent "sort_by_price_desc" then
    find_sort_limit env ∅ "price" (-1)%Z top_k
  else if String.eqb intent "sort_by_price_asc" then
    find_sort_limit env ∅ "price" 1%Z top_k
  else if String.eqb intent "sort_by_area_desc" then
    find_sort_limit env ∅ "area_sqft" (-1)%Z top_k
  else if String.eqb intent "sort_by_area_asc" then
    find_sort_limit env ∅ "area_sqft" 1%Z top_k
  else if String.eqb intent "filter_search" then
    filter_based_search query available_locations
  else chromadb_semantic_search query top_k.

(** The header text chosen from the intent. *)
Definition header_text (intent query : string) (available_locations : list string)
    : string :=
  let location := extract_location_from_query query available_locations in
  let place :=
    if truthy location then " in " +:+ default EmptyString location
    else " we have" in
  if str_in "sort_by_price_desc" intent then
    "Here are the most expensive apartments" +:+ place +:+ ":"
  else if str_in "sort_by_price_asc" intent then
    "Here are the most affordable apartments" +:+ place +:+ ":"
  else if str_in "sort_by_area_desc" intent then
    "Here are the largest apartments" +:+ place +:+ ":"
  else if str_in "sort_by_area_asc" intent then
    "Here are the most compact apartments" +:+ place +:+ ":"
  else if String.eqb intent "filter_search" then
    "Here are apartments matching your filters:"
  else "Here are some apartments that might interest you:".

Definition handle_user_query (query : string) (top_k : nat)
    : result (list (gmap string pyobj)) :=
  available_locations ← get_unique_locations;
  let intent := classify_user_query query available_locations in
  if String.eqb intent "greeting" then mret [greeting_item]
  else
    results ← retrieve intent query available_locations top_k;
    enriched_results ← enrich_all results;
    match enriched_results with
    | [] => mret [no_results_item]
    | _ :: _ =>
        let header := header_text intent query available_locations in
        if negb (is_empty header)
        then mret (header_item header :: enriched_results)
        else mret enriched_results
    end.

(** *** The response envelope ([app/chatbot.py]) *)

(** The dict [get_chat_response] returns; [message] and [query] are the
    keys only some of its shapes have. *)
Record Envelope : Type := {
  status : string;
  message : option pyobj;
  query : option string;
  results : list (gmap string pyobj)
}.

(** [float(v)] *)
Definition py_float (v : pyobj) : result Q :=
  match v with
  | PVal (PInt n) => Ok (inject_Z n)
  | PVal (PFloat x) => Ok x
  | PVal (PStr s) => py_float_of_str env s
  | _ => Raise TypeError
  end.

(** One turn of the loop that builds [results]. *)
Definition result_item (m : gmap string pyobj) : result (gmap string pyobj) :=
  x ← py_float (get m "similarity_score" (PVal (PInt 0)));
  mret (<["summary" := get m "summary" (PVal (PStr "No summary available."))]> (
        <["similarity_score" := PVal (PFloat (py_round x 3))]> ∅)).

Fixpoint result_items (matches : list (gmap string pyobj))
    : result (list (gmap string pyobj)) :=
  match matches with
  | [] => mret []
  | m :: rest =>
      r ← result_item m;
      rs ← result_items rest;
      mret (r :: rs)
  end.

(** [m.get("type") == "greeting"] *)
Definition is_greeting (m : gmap string pyobj) : bool :=
  match m !! "type" with
  | Some (PVal (PStr t)) => String.eqb t "greeting"
  | _ => false
  end.

(** The result item made of the apology. *)
Definition apology_result : gmap string pyobj :=
  <["summary" := PVal (PStr no_results_summary)]> (
  <["similarity_score" := PVal (PFloat (py_round 0 3))]> ∅).

Definition get_chat_response (q : string) : result Envelope :=
  matches ← handle_user_query q 5;
  match matches with
  | [] =>
      mret {| status := "no_results";
              message := Some (PVal (PStr "Sorry, no matching apartments found."));
              query := None;
              results := [] |}
  | first :: _ =>
      if is_greeting first then
        summary ← getitem first "summary";
        mret {| status := "greeting"; message := Some summary;
                query := None; results := [] |}
      else
        rs ← result_items matches;
        mret {| status := "success"; message := None;
                query := Some q; results := rs |}
  end.

End Core.


(** ** A reference collaborator: an in-memory store and index

    A small executable stand-in for the collection and the vector store,
    used to run the handler on concrete data. The general results below
    hold for every [Env]. *)

Module Mem.

Definition number_of (v : pyval) : option Q :=
  match v with
  | PInt n => Some (inject_Z n)
  | PFloat x => Some x
  | _ => None
  end.

(** One operator of an operator dict, on the value of the field. *)
Definition holds_op (op : string) (arg : pyval) (v : option pyval) : bool :=
  if String.eqb op "$lte" then
    match number_of arg, v ≫= number_of with
    | Some a, Some x => Qle_bool x a
    | _, _ => false
    end
  else if String.eqb op "$gte" then
    match number_of arg, v ≫= number_of with
    | Some a, Some x => Qle_bool a x
    | _, _ => false
    end
  else if String.eqb op "$all" then
    match arg, v with
    | PList want, Some (PList have) => forallb (fun w => bool_decide (w ∈ have)) want
    | _, _ => false
    end
  else false.

Definition holds (c : fval) (v : option pyval) : bool :=
  match c with
  | FExact x => match v with Some y => py_eqb y x | None => false end
  | FOps ops => forallb (fun '(op, arg) => holds_op op arg v) (map_to_list ops)
  end.

Definition matches (filter_ : gmap string fval) (r : gmap string pyval) : bool :=
  forallb (fun '(k, c) => holds c (r !! k)) (map_to_list filter_).

Definition sort_leb (field : string) (order : Z) (r1 r2 : gmap string pyval) : bool :=
  let key (r : gmap string pyval) := r !! field ≫= number_of in
  let le (a b : option Q) :=
    match a, b with
    | None, _ => true
    | Some _, None => false
    | Some x, Some y => Qle_bool x y
    end in
  if (0 <? order)%Z then le (key r1) (key r2) else le (key r2) (key r1).

Fixpoint insert_sorted (leb : gmap string pyval → gmap string pyval → bool)
    (r : gmap string pyval) (l : list (gmap string pyval)) : list (gmap string pyval) :=
  match l with
  | [] => [r]
  | r' :: l' => if leb r r' then r :: l else r' :: insert_sorted leb r l'
  end.

Definition sort_by (field : string) (order : Z) (l : list (gmap string pyval))
    : list (gmap string pyval) :=
  foldr (insert_sorted (sort_leb field order)) [] l.

Definition show_Z (n : Z) : string := NilZero.string_of_int (Z.to_int n).

Fixpoint zeros (n : nat) : string :=
  match n with
  | O => EmptyString
  | S n' => String "0" (zeros n')
  end.

(** [x] with [places] decimals. *)
Definition show_fixed (x : Q) (places : nat) : string :=
  let scaled := round_half_even (x * inject_Z (10 ^ Z.of_nat places)) in
  let digits := show_Z (Z.abs scaled) in
  let digits := zeros (S places - String.length digits) +:+ digits in
  let cut := String.length digits - places in
  (if (scaled <? 0)%Z then "-" else "")
    +:+ String.substring 0 cut digits +:+ "." +:+ String.substring cut places digits.

Definition is_integral (x : Q) : bool := Qeq_bool x (inject_Z (Qfloor x)).

(** The shortest decimal writing of [x] with at least one decimal. *)
Fixpoint show_float_from (fuel places : nat) (x : Q) : string :=
  match fuel with
  | O => show_fixed x places
  | S fuel' =>
      if is_integral (x * inject_Z (10 ^ Z.of_nat places)) then show_fixed x places
      else show_float_from fuel' (S places) x
  end.

Definition show (v : pyval) : string :=
  match v with
  | PNone => "None"
  | PInt n => show_Z n
  | PFloat x => show_float_from 16 1 x
  | PStr s => s
  | PList l => "[" +:+ join ", " (map (fun s => "'" +:+ s +:+ "'") l) +:+ "]"
  end.

Definition format_2f (v : pyval) : result string :=
  match v with
  | PInt n => Ok (show_fixed (inject_Z n) 2)
  | PFloat x => Ok (show_fixed x 2)
  | PStr _ => Raise ValueError
  | _ => Raise TypeError
  end.

(** [float(s)] for a plain decimal numeral: an optional sign, digits, and
    an optional fraction. *)
Definition parse_float (s : string) : result Q :=
  let '(negative, body) :=
    match s with
    | String "-" s' => (true, s')
    | _ => (false, s)
    end in
  let whole := digits_prefix body in
  let rest := drop_chars (String.length whole) body in
  let fraction :=
    match rest with
    | String "." f => Some f
    | EmptyString => Some EmptyString
    | _ => None
    end in
  match fraction with
  | Some f =>
      if all_digits f && negb (is_empty whole && is_empty f) then
        let magnitude :=
          Qmake (int_of_digits 0%Z (whole +:+ f))
                (Z.to_pos (10 ^ Z.of_nat (String.length f))) in
        Ok (Qred (if negative : bool then Qopp magnitude else magnitude))
      else Raise ValueError
  | None => Raise ValueError
  end.

Definition location_of (r : gmap string pyval) : option string :=
  match r !! "location" with
  | Some (PStr s) => Some s
  | _ => None
  end.

(** The collection holds [store]; the index answers [query] with
    [neighbours query], nearest first. *)
Definition env (store : list (gmap string pyval))
    (neighbours : string → list (Document * Q)) : Env :=
  {| py_str := show;
     py_format_2f := format_2f;
     py_float_of_str := parse_float;
     aggregate_locations := Ok (remove_dups (map location_of store));
     find := fun filter_ => Ok (List.filter (matches filter_) store);
     find_sort_limit := fun filter_ field order n =>
       Ok (take n (sort_by field order (List.filter (matches filter_) store)));
     similarity_search_with_score := fun query k => Ok (take k (neighbours query)) |}.

(** The documents [create_langchain_documents] makes of [store], each at the
    distance listed for it. *)
Definition indexed (store : list (gmap string pyval)) (distances : list Q)
    : list (Document * Q) :=
  match create_langchain_documents (env store (fun _ => [])) store with
  | Ok documents => zip documents distances
  | Raise _ => []
  end.

(** An apartment record with all five fields. *)
Definition apartment (bedrooms : Z) (location : string) (price area_sqft : Z)
    (amenities : list string) : gmap string pyval :=
  <["bedrooms" := PInt bedrooms]> (
  <["location" := PStr location]> (
  <["price" := PInt price]> (
  <["area_sqft" := PInt area_sqft]> (
  <["amenities" := PList amenities]> ∅)))).

End Mem.

(** ** Sample data *)

Definition baner : gmap string pyval :=
  Mem.apartment 2 "Baner, Pune" 30000 900 ["Gym"; "Parking"].

Definition andheri : gmap string pyval :=
  Mem.apartment 3 "Andheri, Mumbai" 80000 1200 ["Swimming Pool"].

(** An empty collection and an empty index. *)
Definition empty_env : Env := Mem.env [] (fun _ => []).

(** Two apartments; the index holds the first twice (the store was indexed
    again at a restart) and the second once. *)
Definition two_flats : Env :=
  Mem.env [baner; andheri]
          (fun _ => Mem.indexed [baner; baner; andheri]
                                [(21 # 50)%Q; (21 # 50)%Q; (3 # 4)%Q]).

(** ** Vocabulary of the further properties *)

Definition qualified_sort_intents : list string :=
  ["sort_by_price_desc_location"; "sort_by_price_asc_location";
   "sort_by_area_desc_location"; "sort_by_area_asc_location"].

Definition plain_sort_intents : list string :=
  ["sort_by_price_desc"; "sort_by_price_asc";
   "sort_by_area_desc"; "sort_by_area_asc"].

(** Every string [classify_user_query] can return. *)
Definition intents : list string :=
  "greeting" :: qualified_sort_intents ++ plain_sort_intents
    ++ ["filter_search"; "semantic_search"].

(** The keys [filter_based_search] can put into its filter. *)
Definition filter_keys : list string :=
  ["bedrooms"; "location"; "price"; "amenities"].

(** The amenity names, in the order the source tests for them. *)
Definition amenity_names : list string := ["Swimming Pool"; "Gym"; "Parking"].

(** A known location whose lowercase form is empty or has no blank at
    either end. *)
Definition clean (loc : string) : bool :=
  is_empty (lower loc) || solid (lower loc).

(** The store of [two_flats] with a vector index that cannot be reached. *)
Definition index_down : Env :=
  {| py_str := Mem.show;
     py_format_2f := Mem.format_2f;
     py_float_of_str := Mem.parse_float;
     aggregate_locations := aggregate_locations two_flats;
     find := find two_flats;
     find_sort_limit := find_sort_limit two_flats;
     similarity_search_with_score := fun _ _ => Raise StoreUnavailable |}.

(** A collection that cannot be reached. *)
Definition store_down : Env :=
  {| py_str := Mem.show;
     py_format_2f := Mem.format_2f;
     py_float_of_str := Mem.parse_float;
     aggregate_locations := Raise StoreUnavailable;
     find := fun _ => Raise StoreUnavailable;
     find_sort_limit := fun _ _ _ _ => Raise StoreUnavailable;
     similarity_search_with_score := fun _ _ => Raise StoreUnavailable |}.

(** * Properties *)

(** ** Strings *)

Section StringFacts.

Implicit Types s t pre suf : string.

Lemma append_cons c s t : String c s +:+ t = String c (s +:+ t).
Proof. reflexivity. Qed.

Lemma append_empty_l s : "" +:+ s = s.
Proof. reflexivity. Qed.

Lemma append_assoc' s t u : (s +:+ t) +:+ u = s +:+ t +:+ u.
Proof.
  induction s as [|c s IH]; [done |]. rewrite !append_cons. by f_equal.
Qed.

Lemma startswith_spec s t : startswith s t = true ↔ ∃ suf, s = t +:+ suf.
Proof.
  revert s. induction t as [|b t IH]; intros s.
  - split; [intros _; by exists s | by destruct s].
  - destruct s as [|a s]; simpl.
    + split; [done | intros [suf H]; discriminate].
    + rewrite andb_true_iff, Ascii.eqb_eq, IH. split.
      * intros [-> [suf ->]]. by exists suf.
      * intros [suf H]. rewrite append_cons in H. injection H as -> ->. eauto.
Qed.

Lemma str_in_spec t s : str_in t s = true ↔ ∃ pre suf, s = pre +:+ t +:+ suf.
Proof.
  induction s as [|a s IH].
  - cbn [str_in]. rewrite orb_false_r, startswith_spec. split.
    + intros [suf H]. by exists "", suf.
    + intros (pre & suf & H). destruct pre; [by exists suf | discriminate].
  - cbn [str_in]. rewrite orb_true_iff, startswith_spec, IH. split.
    + intros [[suf H] | (pre & suf & H)].
      * by exists "", suf.
      * exists (String a pre), suf. by rewrite append_cons, H.
    + intros (pre & suf & H). destruct pre as [|c pre].
      * left. by exists suf.
      * right. rewrite append_cons in H. injection H as -> ->. by exists pre, suf.
Qed.

Lemma str_in_trans t u s :
  str_in t u = true → str_in u s = true → str_in t s = true.
Proof.
  rewrite !str_in_spec. intros (p1 & s1 & ->) (p2 & s2 & ->).
  exists (p2 +:+ p1), (s1 +:+ s2). by rewrite !append_assoc'.
Qed.

Lemma lstrip_spec s : ∃ ws, s = ws +:+ lstrip s.
Proof.
  induction s as [|c s [ws IH]]; [by exists "" |].
  simpl. destruct (is_space c).
  - exists (String c ws). by rewrite append_cons, <- IH.
  - by exists "".
Qed.

Lemma rstrip_spec s : ∃ ws, s = rstrip s +:+ ws.
Proof.
  induction s as [|c s [ws IH]]; [by exists "" |].
  simpl. destruct (is_space c && is_empty (rstrip s)) eqn:E.
  - by exists (String c s).
  - exists ws. by rewrite append_cons, <- IH.
Qed.

(** The stripped text is a part of the text. *)
Lemma str_in_strip_inv t s : str_in t (strip s) = true → str_in t s = true.
Proof.
  intros H. apply (str_in_trans _ _ _ H). apply str_in_spec.
  destruct (lstrip_spec s) as [w1 H1]. destruct (rstrip_spec (lstrip s)) as [w2 H2].
  exists w1, w2. unfold strip. by rewrite <- H2.
Qed.

Lemma lstrip_keeps pre c t :
  is_space c = false → ∃ pre', lstrip (pre +:+ String c t) = pre' +:+ String c t.
Proof.
  intros Hc. induction pre as [|a pre [pre' IH]].
  - rewrite append_empty_l. simpl. rewrite Hc. by exists "".
  - rewrite append_cons. simpl.
    destruct (is_space a); [by exists pre' | by exists (String a pre)].
Qed.

Lemma is_empty_app_r s t : is_empty t = false → is_empty (s +:+ t) = false.
Proof. by destruct s, t. Qed.

Lemma rstrip_app_stable t suf :
  is_empty t = false → rstrip t = t → ∃ suf', rstrip (t +:+ suf) = t +:+ suf'.
Proof.
  induction t as [|c t IH]; [done |]. intros _ Ht.
  rewrite append_cons. simpl in Ht |- *.
  destruct t as [|d t].
  - simpl in Ht. rewrite andb_true_r in Ht. rewrite append_empty_l.
    destruct (is_space c); [done |]. by exists (rstrip suf).
  - destruct (is_space c && is_empty (rstrip (String d t))) eqn:E; [done |].
    injection Ht as Ht. destruct (IH eq_refl Ht) as [suf' IH'].
    rewrite IH', !append_cons. simpl. rewrite andb_false_r. by exists suf'.
Qed.

Lemma rstrip_app_nonempty pre x :
  is_empty (rstrip x) = false → rstrip (pre +:+ x) = pre +:+ rstrip x.
Proof.
  intros Hx. induction pre as [|a pre IH]; [done |].
  rewrite !append_cons. simpl.
  by rewrite IH, (is_empty_app_r _ _ Hx), andb_false_r.
Qed.

Lemma solid_inv t :
  solid t = true →
  ∃ c t', t = String c t' ∧ is_space c = false ∧ rstrip t = t.
Proof.
  unfold solid. rewrite andb_true_iff, String.eqb_eq.
  destruct t as [|c t']; [by intros [? _] |].
  intros [Hc Hr]. exists c, t'. by rewrite <- negb_true_iff.
Qed.

(** Stripping a text neither adds nor removes an occurrence of a solid
    phrase. *)
Lemma str_in_strip t s : solid t = true → str_in t (strip s) = str_in t s.
Proof.
  intros Ht. apply eq_true_iff_eq. split; [apply str_in_strip_inv |].
  destruct (solid_inv t Ht) as (c & t' & -> & Hc & Hr).
  rewrite !str_in_spec. intros (pre & suf & ->).
  destruct (lstrip_keeps pre c (t' +:+ suf) Hc) as [pre' Hl].
  destruct (rstrip_app_stable (String c t') suf eq_refl Hr) as [suf' Hs].
  exists pre', suf'. unfold strip. rewrite append_cons in *. rewrite Hl.
  rewrite rstrip_app_nonempty; rewrite Hs; done.
Qed.

End StringFacts.

(** ** Intent classification *)

Section Classifier.

Lemma existsb_true {A : Type} (f : A → bool) (l : list A) :
  existsb f l = true ↔ ∃ x, x ∈ l ∧ f x = true.
Proof.
  rewrite existsb_exists. by setoid_rewrite list_elem_of_In.
Qed.

Lemma existsb_false {A : Type} (f : A → bool) (l : list A) :
  existsb f l = false ↔ ∀ x, x ∈ l → f x = false.
Proof.
  rewrite <- not_true_iff_false, existsb_true. split.
  - intros H x Hx. apply not_true_iff_false. naive_solver.
  - intros H (x & Hx & Hf). rewrite (H x Hx) in Hf. done.
Qed.

Lemma existsb_str_in_strip (phrases : list string) (s : string) :
  forallb solid phrases = true →
  existsb (fun w => str_in w (strip s)) phrases = existsb (fun w => str_in w s) phrases.
Proof.
  induction phrases as [|w l IH]; [done |]. simpl.
  rewrite andb_true_iff. intros [Hw Hl]. by rewrite (str_in_strip w s Hw), IH.
Qed.

(** The classifier reads the stripped text, yet every phrase it looks for
    is solid: the cascade can be read on the lowercased query itself. Only
    the location is resolved from the stripped text. *)
Lemma classify_user_query_unfold (q : string) (locs : list string) :
  classify_user_query q locs =
    if existsb (fun greet => str_in greet (lower q)) greetings then "greeting"
    else
      let location := extract_location_from_query (strip (lower q)) locs in
      if re_search_alt price_desc_phrases (lower q) then
        if truthy location then "sort_by_price_desc_location" else "sort_by_price_desc"
      else if re_search_alt price_asc_phrases (lower q) then
        if truthy location then "sort_by_price_asc_location" else "sort_by_price_asc"
      else if re_search_alt area_desc_phrases (lower q) then
        if truthy location then "sort_by_area_desc_location" else "sort_by_area_desc"
      else if re_search_alt area_asc_phrases (lower q) then
        if truthy location then "sort_by_area_asc_location" else "sort_by_area_asc"
      else if existsb (fun word => str_in word (lower q)) filter_words then "filter_search"
      else "semantic_search".
Proof.
  unfold classify_user_query, re_search_alt.
  by rewrite !existsb_str_in_strip.
Qed.

Lemma sort_phrases_absent (s : string) :
  (∀ p, p ∈ sort_phrases → str_in p s = false) →
  re_search_alt price_desc_phrases s = false ∧
  re_search_alt price_asc_phrases s = false ∧
  re_search_alt area_desc_phrases s = false ∧
  re_search_alt area_asc_phrases s = false.
Proof.
  intros H. unfold re_search_alt. rewrite !existsb_false.
  unfold sort_phrases in H. setoid_rewrite elem_of_app in H.
  setoid_rewrite elem_of_app in H. setoid_rewrite elem_of_app in H.
  naive_solver.
Qed.

(** The first check of the cascade decides alone. *)
Lemma greeting_check_decides (q : string) (locs : list string) (g : string) :
  g ∈ greetings →
  str_in g (strip (lower q)) = true →
  classify_user_query q locs = "greeting".
Proof.
  intros Hg Hin. unfold classify_user_query.
  assert (existsb (fun greet => str_in greet (strip (lower q))) greetings = true) as ->.
  { apply existsb_true. eauto. }
  done.
Qed.

(** C5. A query whose lowercased, trimmed text contains a greeting phrase
    is classified [greeting], whatever else it contains and whatever the
    known locations are. *)
Theorem greeting_phrase_wins (q : string) (locs : list string) (g : string) :
  g ∈ greetings →
  str_in g (strip (lower q)) = true →
  classify_user_query q locs = "greeting".
Proof. apply greeting_check_decides. Qed.

Lemma greeting_phrase_wins_witness :
  "hi" ∈ greetings ∧
  str_in "hi" (strip (lower "Hi, show cheapest 2 BHK in Pune")) = true ∧
  classify_user_query "Hi, show cheapest 2 BHK in Pune" ["Baner, Pune"] = "greeting".
Proof.
  assert ("hi" ∈ greetings) as Hg by (apply list_elem_of_In; simpl; tauto).
  assert (str_in "hi" (strip (lower "Hi, show cheapest 2 BHK in Pune")) = true)
    as Hin by reflexivity.
  exact (conj Hg (conj Hin
    (greeting_phrase_wins "Hi, show cheapest 2 BHK in Pune" ["Baner, Pune"] "hi" Hg Hin))).
Defined.

(** C9. Greeting detection is substring containment: a query whose
    lowercased text contains ["hi"] anywhere is a greeting, so a query that
    mentions ["delhi"] never reaches a sort, filter or semantic intent. *)
Theorem hi_inside_a_word_is_greeting (q : string) (locs : list string) :
  (str_in "hi" (lower q) = true → classify_user_query q locs = "greeting") ∧
  (str_in "delhi" (lower q) = true → classify_user_query q locs = "greeting").
Proof.
  assert (str_in "hi" (lower q) = true → classify_user_query q locs = "greeting") as Hhi.
  { intros H. apply (greeting_check_decides q locs "hi").
    - apply list_elem_of_In. simpl. tauto.
    - by rewrite str_in_strip. }
  split; [done |]. intros H. apply Hhi.
  by apply (str_in_trans "hi" "delhi").
Qed.

Lemma hi_inside_a_word_is_greeting_witness :
  str_in "hi" (lower "2 BHK flats in Delhi") = true ∧
  str_in "delhi" (lower "2 BHK flats in Delhi") = true ∧
  classify_user_query "2 BHK flats in Delhi" ["Saket, Delhi"] = "greeting".
Proof.
  assert (str_in "delhi" (lower "2 BHK flats in Delhi") = true) as H by reflexivity.
  split; [reflexivity |]. split; [exact H |].
  exact (proj2 (hi_inside_a_word_is_greeting "2 BHK flats in Delhi" ["Saket, Delhi"]) H).
Defined.

(** What the filter words decide, read on the lowercased query. *)
Lemma filter_words_decide (q : string) (locs : list string) :
  ((∀ g, g ∈ greetings → str_in g (lower q) = false) →
   (∀ p, p ∈ sort_phrases → str_in p (lower q) = false) →
   str_in "in" (lower q) = true →
   classify_user_query q locs = "filter_search") ∧
  (classify_user_query q locs = "semantic_search" →
   ∀ w, w ∈ filter_words → str_in w (lower q) = false).
Proof.
  rewrite classify_user_query_unfold. split.
  - intros Hg Hs Hin.
    apply existsb_false in Hg. rewrite Hg.
    destruct (sort_phrases_absent _ Hs) as (-> & -> & -> & ->). cbn zeta.
    assert (existsb (fun word => str_in word (lower q)) filter_words = true) as ->.
    { apply existsb_true. exists "in". split; [|done].
      apply list_elem_of_In. simpl. tauto. }
    done.
  - cbn zeta. intros H. apply existsb_false.
    repeat match type of H with
           | (if ?c then _ else _) = _ => destruct c; try discriminate H
           end.
    done.
Qed.

(** C10. Filter trigger words are matched as substrings: a query of ASCII
    text with no greeting phrase and no superlative phrase whose lowercased
    text contains ["in"] anywhere is a [filter_search]; and
    [semantic_search] is returned only when the text contains none of the
    trigger words. *)
Theorem in_inside_a_word_is_filter (q : string) (locs : list string) :
  is_ascii q = true →
  ((∀ g, g ∈ greetings → str_in g (lower q) = false) →
   (∀ p, p ∈ sort_phrases → str_in p (lower q) = false) →
   str_in "in" (lower q) = true →
   classify_user_query q locs = "filter_search") ∧
  (classify_user_query q locs = "semantic_search" →
   ∀ w, w ∈ filter_words → str_in w (lower q) = false).
Proof. intros _. apply filter_words_decide. Qed.

Lemma in_inside_a_word_is_filter_witness :
  classify_user_query "I am interested" [] = "filter_search" ∧
  (∀ w, w ∈ filter_words → str_in w (lower "flat") = false).
Proof.
  split.
  - apply (proj1 (in_inside_a_word_is_filter "I am interested" [] eq_refl)).
    + apply existsb_false. reflexivity.
    + apply existsb_false. reflexivity.
    + reflexivity.
  - apply (proj2 (in_inside_a_word_is_filter "flat" [] eq_refl)). reflexivity.
Defined.

End Classifier.

(** ** Location resolution *)

Section Resolver.

Implicit Types m : list (string * string).

Lemma dict_set_elem k0 v0 m k v :
  (k, v) ∈ dict_set k0 v0 m → (k, v) ∈ m ∨ (k = k0 ∧ v = v0).
Proof.
  induction m as [|[k' v'] m IH]; simpl.
  - rewrite list_elem_of_singleton. intros [= -> ->]. by right.
  - destruct (String.eqb_spec k' k0) as [-> | Hne].
    + rewrite !elem_of_cons. intros [[= -> ->] | H]; [by right | by left; right].
    + rewrite !elem_of_cons. intros [H | H]; [by left; left |].
      destruct (IH H) as [? | ?]; [by left; right | by right].
Qed.

Lemma dict_set_key_new k0 v0 m : (k0, v0) ∈ dict_set k0 v0 m.
Proof.
  induction m as [|[k' v'] m IH]; simpl; [apply list_elem_of_singleton; done |].
  destruct (String.eqb_spec k' k0) as [-> | Hne]; [by left | by right].
Qed.

Lemma dict_set_key_kept k0 v0 m k :
  (∃ v, (k, v) ∈ m) → ∃ v, (k, v) ∈ dict_set k0 v0 m.
Proof.
  induction m as [|[k' v'] m IH]; intros [v Hv]; [by apply elem_of_nil in Hv |].
  simpl. apply elem_of_cons in Hv as [[= -> ->] | Hv].
  - destruct (String.eqb_spec k' k0) as [-> | Hne]; eexists; by left.
  - destruct (String.eqb_spec k' k0) as [-> | Hne].
    + exists v. by right.
    + destruct IH as [v2 H2]; [by exists v |]. exists v2. by right.
Qed.

Lemma location_map_fold_elem locs m k v :
  (k, v) ∈ fold_left (fun m loc => dict_set (lower loc) loc m) locs m →
  (k, v) ∈ m ∨ (v ∈ locs ∧ k = lower v).
Proof.
  revert m. induction locs as [|loc locs IH]; intros m; simpl; [by left |].
  intros H. destruct (IH _ H) as [H' | [H1 H2]].
  - destruct (dict_set_elem _ _ _ _ _ H') as [? | [-> ->]]; [by left |].
    right. split; [by left | done].
  - right. split; [by right | done].
Qed.

Lemma location_map_fold_key locs m k :
  (∃ v, (k, v) ∈ m) →
  ∃ v, (k, v) ∈ fold_left (fun m loc => dict_set (lower loc) loc m) locs m.
Proof.
  revert m. induction locs as [|loc locs IH]; intros m H; simpl; [done |].
  apply IH. by apply dict_set_key_kept.
Qed.

(** Every entry of [location_map] pairs a known location with its
    lowercase form. *)
Lemma location_map_elem locs k v :
  (k, v) ∈ location_map locs → v ∈ locs ∧ k = lower v.
Proof.
  intros H. destruct (location_map_fold_elem _ _ _ _ H) as [H' | H']; [|done].
  by apply elem_of_nil in H'.
Qed.

(** Every known location has its lowercase form among the keys. *)
Lemma location_map_key locs loc :
  loc ∈ locs → ∃ v, (lower loc, v) ∈ location_map locs.
Proof.
  unfold location_map. generalize (@nil (string * string)).
  induction locs as [|l locs IH]; intros m H; [by apply elem_of_nil in H |].
  simpl. apply elem_of_cons in H as [-> | H].
  - apply location_map_fold_key. eexists. apply dict_set_key_new.
  - by apply IH.
Qed.

Lemma first_where_Some test m v :
  first_where test m = Some v → ∃ k, (k, v) ∈ m ∧ test k = true.
Proof.
  induction m as [|[k' v'] m IH]; simpl; [done |].
  destruct (test k') eqn:E.
  - intros [= ->]. exists k'. split; [by left | done].
  - intros H. destruct (IH H) as (k & Hk & Ht). exists k. split; [by right | done].
Qed.

Lemma first_where_None test m :
  first_where test m = None ↔ ∀ k v, (k, v) ∈ m → test k = false.
Proof.
  induction m as [|[k' v'] m IH]; simpl.
  - split; [|done]. intros _ k v H. by apply elem_of_nil in H.
  - destruct (test k') eqn:E.
    + split; [done |]. intros H. specialize (H k' v'). rewrite E in H.
      discriminate H. by left.
    + rewrite IH. split.
      * intros H k v [[= -> ->] | Hin]%elem_of_cons; eauto.
      * intros H k v Hin. apply (H k v). by right.
Qed.

(** The loop returns the first entry that passes the test. *)
Lemma first_where_first test m v :
  first_where test m = Some v →
  ∃ m1 k m2, m = m1 ++ (k, v) :: m2 ∧ test k = true ∧
             ∀ k' v', (k', v') ∈ m1 → test k' = false.
Proof.
  induction m as [|[k' v'] m IH]; simpl; [done |].
  destruct (test k') eqn:E.
  - intros [= ->]. exists [], k', m. split; [done |]. split; [done |].
    intros ? ? H. by apply elem_of_nil in H.
  - intros H. destruct (IH H) as (m1 & k & m2 & -> & Ht & Hm1).
    exists ((k', v') :: m1), k, m2. split; [done |]. split; [done |].
    intros k2 v2 [[= -> ->] | Hin]%elem_of_cons; eauto.
Qed.

Lemma alias_loop_Some query m aliases r :
  alias_loop query m aliases = Some r →
  ∃ alias k, alias ∈ aliases ∧ str_in alias query = true ∧
             (k, r) ∈ m ∧ str_in alias k = true.
Proof.
  induction aliases as [|a rest IH]; simpl; [done |].
  destruct (str_in a query) eqn:Ea.
  - destruct (first_where (str_in a) m) as [v|] eqn:Ef.
    + intros [= ->]. destruct (first_where_Some _ _ _ Ef) as (k & Hk & Ht).
      exists a, k. repeat split; [by left | done..].
    + intros H. destruct (IH H) as (a' & k & ? & ? & ? & ?).
      exists a', k. repeat split; [by right | done..].
  - intros H. destruct (IH H) as (a' & k & ? & ? & ? & ?).
    exists a', k. repeat split; [by right | done..].
Qed.

Lemma alias_loop_None query m aliases :
  alias_loop query m aliases = None ↔
  ∀ alias, alias ∈ aliases → str_in alias query = true →
           ∀ k v, (k, v) ∈ m → str_in alias k = false.
Proof.
  induction aliases as [|a rest IH]; simpl.
  - split; [|done]. intros _ ? H. by apply elem_of_nil in H.
  - destruct (str_in a query) eqn:Ea.
    + destruct (first_where (str_in a) m) as [v|] eqn:Ef.
      * split; [done |]. intros H.
        destruct (first_where_Some _ _ _ Ef) as (k & Hk & Ht).
        rewrite (H a (list_elem_of_here _ _) Ea k v Hk) in Ht. done.
      * rewrite IH. rewrite first_where_None in Ef. split.
        -- intros H a' [-> | Hin]%elem_of_cons; eauto.
        -- intros H a' Hin. apply H. by right.
    + rewrite IH. split.
      * intros H a' [-> | Hin]%elem_of_cons; [by rewrite Ea | eauto].
      * intros H a' Hin. apply H. by right.
Qed.

Lemma alias_match_spec query loc :
  alias_match query loc = true ↔
  ∃ alias, alias ∈ concat (map snd city_aliases) ∧
           str_in alias (lower query) = true ∧ str_in alias (lower loc) = true.
Proof.
  unfold alias_match. rewrite existsb_true.
  by setoid_rewrite andb_true_iff.
Qed.

(** The outcome of each of the three stages, read on the known locations. *)
Lemma stage_1_found query locs loc :
  loc ∈ locs → full_match query loc = true →
  ∃ r, first_where (fun loc_lower => str_in loc_lower (lower query))
                   (location_map locs) = Some r.
Proof.
  intros Hin Hm. destruct (location_map_key locs loc Hin) as [v Hv].
  destruct (first_where _ _) as [r|] eqn:E; [by exists r |].
  rewrite first_where_None in E. unfold full_match in Hm.
  by rewrite (E _ _ Hv) in Hm.
Qed.

Lemma stage_2_found query locs loc :
  loc ∈ locs → city_match query loc = true →
  ∃ r, first_where (fun loc_lower => str_in (city_part loc_lower) (lower query))
                   (location_map locs) = Some r.
Proof.
  intros Hin Hm. destruct (location_map_key locs loc Hin) as [v Hv].
  destruct (first_where _ _) as [r|] eqn:E; [by exists r |].
  rewrite first_where_None in E. unfold city_match in Hm.
  by rewrite (E _ _ Hv) in Hm.
Qed.

Lemma stage_1_none query locs :
  (∀ loc, loc ∈ locs → full_match query loc = false) →
  first_where (fun loc_lower => str_in loc_lower (lower query))
              (location_map locs) = None.
Proof.
  intros H. apply first_where_None. intros k v Hkv.
  destruct (location_map_elem _ _ _ Hkv) as [Hv ->]. by apply H.
Qed.

Lemma stage_2_none query locs :
  (∀ loc, loc ∈ locs → city_match query loc = false) →
  first_where (fun loc_lower => str_in (city_part loc_lower) (lower query))
              (location_map locs) = None.
Proof.
  intros H. apply first_where_None. intros k v Hkv.
  destruct (location_map_elem _ _ _ Hkv) as [Hv ->]. by apply H.
Qed.

(** The answer of the resolver, stage by stage. *)
Lemma resolver_stages (query : string) (locs : list string) :
  (∀ loc, loc ∈ locs → full_match query loc = true →
     ∃ r, extract_location_from_query query locs = Some r ∧
          r ∈ locs ∧ full_match query r = true) ∧
  ((∀ loc, loc ∈ locs → full_match query loc = false) →
   ∀ loc, loc ∈ locs → city_match query loc = true →
     ∃ r, extract_location_from_query query locs = Some r ∧
          r ∈ locs ∧ city_match query r = true) ∧
  ((∀ loc, loc ∈ locs → full_match query loc = false) →
   (∀ loc, loc ∈ locs → city_match query loc = false) →
   ∀ loc, loc ∈ locs → alias_match query loc = true →
     ∃ r, extract_location_from_query query locs = Some r ∧
          r ∈ locs ∧ alias_match query r = true) ∧
  ((∀ loc, loc ∈ locs → full_match query loc = false) →
   (∀ loc, loc ∈ locs → city_match query loc = false) →
   (∀ loc, loc ∈ locs → alias_match query loc = false) →
   extract_location_from_query query locs = None).
Proof.
  unfold extract_location_from_query. cbn zeta. repeat split.
  - intros loc Hin Hm. destruct (stage_1_found _ _ _ Hin Hm) as [r Hr].
    rewrite Hr. exists r. split; [done |].
    destruct (first_where_Some _ _ _ Hr) as (k & Hk & Ht).
    destruct (location_map_elem _ _ _ Hk) as [Hv ->]. done.
  - intros H1 loc Hin Hm. rewrite (stage_1_none _ _ H1).
    destruct (stage_2_found _ _ _ Hin Hm) as [r Hr].
    rewrite Hr. exists r. split; [done |].
    destruct (first_where_Some _ _ _ Hr) as (k & Hk & Ht).
    destruct (location_map_elem _ _ _ Hk) as [Hv ->]. done.
  - intros H1 H2 loc Hin Hm.
    rewrite (stage_1_none _ _ H1), (stage_2_none _ _ H2).
    destruct (alias_loop _ _ _) as [r|] eqn:E.
    + exists r. split; [done |].
      destruct (alias_loop_Some _ _ _ _ E) as (a & k & Ha & Hq & Hk & Hl).
      destruct (location_map_elem _ _ _ Hk) as [Hv ->].
      split; [done |]. apply alias_match_spec. eauto.
    + rewrite alias_loop_None in E.
      apply alias_match_spec in Hm as (a & Ha & Hq & Hl).
      destruct (location_map_key locs loc Hin) as [v Hv].
      by rewrite (E a Ha Hq _ _ Hv) in Hl.
  - intros H1 H2 H3.
    rewrite (stage_1_none _ _ H1), (stage_2_none _ _ H2).
    apply alias_loop_None. intros a Ha Hq k v Hk.
    destruct (location_map_elem _ _ _ Hk) as [Hv ->].
    specialize (H3 v Hv). apply not_true_iff_false in H3.
    apply not_true_iff_false. intros Hl. apply H3, alias_match_spec. eauto.
Qed.

(** C8. On ASCII text, the resolver tries the three stages in order and
    the first stage that has a match answers: a location whose full name
    occurs in the query is returned before any city-part match, a city-part
    match before any alias match, and with no match at any stage the answer
    is none. *)
Theorem location_priority_order (query : string) (locs : list string) :
  is_ascii query = true →
  all_ascii locs = true →
  (∀ loc, loc ∈ locs → full_match query loc = true →
     ∃ r, extract_location_from_query query locs = Some r ∧
          r ∈ locs ∧ full_match query r = true) ∧
  ((∀ loc, loc ∈ locs → full_match query loc = false) →
   ∀ loc, loc ∈ locs → city_match query loc = true →
     ∃ r, extract_location_from_query query locs = Some r ∧
          r ∈ locs ∧ city_match query r = true) ∧
  ((∀ loc, loc ∈ locs → full_match query loc = false) →
   (∀ loc, loc ∈ locs → city_match query loc = false) →
   ∀ loc, loc ∈ locs → alias_match query loc = true →
     ∃ r, extract_location_from_query query locs = Some r ∧
          r ∈ locs ∧ alias_match query r = true) ∧
  ((∀ loc, loc ∈ locs → full_match query loc = false) →
   (∀ loc, loc ∈ locs → city_match query loc = false) →
   (∀ loc, loc ∈ locs → alias_match query loc = false) →
   extract_location_from_query query locs = None).
Proof. intros _ _. apply resolver_stages. Qed.

Lemma location_priority_order_witness :
  ∃ r, extract_location_from_query "Apartments in Pune"
         ["Koregaon Park, Pune"; "Baner, Pune"] = Some r ∧
       r ∈ ["Koregaon Park, Pune"; "Baner, Pune"] ∧
       alias_match "Apartments in Pune" r = true.
Proof.
  refine (proj1 (proj2 (proj2 (location_priority_order "Apartments in Pune"
            ["Koregaon Park, Pune"; "Baner, Pune"] eq_refl eq_refl)))
            _ _ "Baner, Pune" _ _).
  - apply existsb_false. reflexivity.
  - apply existsb_false. reflexivity.
  - apply list_elem_of_In. simpl. tauto.
  - reflexivity.
Defined.

End Resolver.

(** ** Filter extraction *)

Section Extraction.

Lemma match_bhk_here_digit s g :
  match_bhk_here s = Some g → ∃ d, g = String d "" ∧ is_digit d = true.
Proof.
  destruct s as [|d r]; [done |]. simpl.
  destruct (is_digit d) eqn:Ed; [|done].
  destruct (_ || _); [|done]. intros [= <-]. eauto.
Qed.

Lemma re_search_bhk_digit s g :
  re_search_bhk s = Some g → ∃ d, g = String d "" ∧ is_digit d = true.
Proof.
  induction s as [|c s IH]; cbn [re_search_bhk].
  - destruct (match_bhk_here "") eqn:E; [|done].
    intros [= <-]. by apply (match_bhk_here_digit "").
  - destruct (match_bhk_here (String c s)) eqn:E; [|done].
    intros [= <-]. by apply (match_bhk_here_digit (String c s)).
Qed.

(** The bedroom count is read from a single digit: [int] cannot fail on it. *)
Lemma re_search_bhk_int s g :
  re_search_bhk s = Some g → py_int g = Ok (int_of_digits 0%Z g).
Proof.
  intros H. destruct (re_search_bhk_digit s g H) as (d & -> & Hd).
  unfold py_int. simpl. by rewrite Hd.
Qed.

(** What [build_filter] leaves under each key. *)
Lemma build_filter_lookups (q : string) (locs : list string) :
  ∃ f, build_filter q locs = Ok f ∧
    f !! "bedrooms" =
      ((fun g => FExact (PInt (int_of_digits 0%Z g))) <$> re_search_bhk (lower q)) ∧
    f !! "location" =
      (let location := extract_location_from_query (lower q) locs in
       if truthy location then Some (FExact (PStr (default "" location))) else None) ∧
    f !! "price" =
      (if has_ceiling_word (lower q) then
         match price_amount ["under"; "below"] (lower q) with
         | Ok amount => Some (FOps {[ "$lte" := PInt amount ]})
         | Raise _ => None
         end
       else if has_floor_word (lower q) then
         match price_amount ["above"; "over"] (lower q) with
         | Ok amount => Some (FOps {[ "$gte" := PInt amount ]})
         | Raise _ => None
         end
       else None) ∧
    f !! "amenities" =
      (match wanted_amenities (lower q) with
       | [] => None
       | amenities => Some (FOps {[ "$all" := PList amenities ]})
       end).
Proof.
  unfold build_filter, has_ceiling_word, has_floor_word, price_clause. cbn zeta.
  destruct (re_search_bhk (lower q)) as [g|] eqn:Eb;
    [rewrite (re_search_bhk_int _ _ Eb) |];
    cbn [mbind result_bind mret result_ret fmap option_fmap option_map];
    destruct (truthy _);
    destruct (_ || _);
    [ destruct (price_amount _ _) | destruct (_ || _); [destruct (price_amount _ _) |]
    | destruct (price_amount _ _) | destruct (_ || _); [destruct (price_amount _ _) |]
    | destruct (price_amount _ _) | destruct (_ || _); [destruct (price_amount _ _) |]
    | destruct (price_amount _ _) | destruct (_ || _); [destruct (price_amount _ _) |] ];
    cbn [mbind result_bind mret result_ret try_pass];
    destruct (wanted_amenities _);
    eexists; (split; [reflexivity |]); by simplify_map_eq.
Qed.


(** The price entry of the filter, by the trigger words of the query. *)
Lemma price_entry_of_filter (q : string) (locs : list string)
    (f : gmap string fval) :
  build_filter q locs = Ok f →
  (has_ceiling_word (lower q) = true →
     f !! "price" =
       match price_amount ["under"; "below"] (lower q) with
       | Ok amount => Some (FOps {[ "$lte" := PInt amount ]})
       | Raise _ => None
       end ∧
     ∀ amount, ¬ has_constraint f "price" "$gte" amount) ∧
  (has_ceiling_word (lower q) = false → has_floor_word (lower q) = true →
     f !! "price" =
       match price_amount ["above"; "over"] (lower q) with
       | Ok amount => Some (FOps {[ "$gte" := PInt amount ]})
       | Raise _ => None
       end).
Proof.
  intros Hf. destruct (build_filter_lookups q locs) as (f' & Hf' & _ & _ & Hp & _).
  rewrite Hf in Hf'. injection Hf' as <-. split.
  - intros Hc. rewrite Hc in Hp. split; [done |].
    intros amount (ops & Hops & Hgte). rewrite Hp in Hops.
    destruct (price_amount _ _); [|done].
    injection Hops as <-. by rewrite lookup_singleton_ne in Hgte.
  - intros Hc Hfl. by rewrite Hc, Hfl in Hp.
Qed.

(** C6 (as the code has it). On ASCII text, the two price rules are
    alternatives, the ceiling first: a query that contains ["under"] or
    ["below"] gets [price <= amount] alone when the ceiling pattern parses,
    and no [price >= amount] even when a floor trigger is present too; the
    floor is extracted only for a query with neither ceiling word. *)
Theorem price_rules_are_alternatives (q : string) (locs : list string)
    (f : gmap string fval) :
  is_ascii q = true →
  build_filter q locs = Ok f →
  (has_ceiling_word (lower q) = true →
     f !! "price" =
       match price_amount ["under"; "below"] (lower q) with
       | Ok amount => Some (FOps {[ "$lte" := PInt amount ]})
       | Raise _ => None
       end ∧
     ∀ amount, ¬ has_constraint f "price" "$gte" amount) ∧
  (has_ceiling_word (lower q) = false → has_floor_word (lower q) = true →
     f !! "price" =
       match price_amount ["above"; "over"] (lower q) with
       | Ok amount => Some (FOps {[ "$gte" := PInt amount ]})
       | Raise _ => None
       end).
Proof. intros _. apply price_entry_of_filter. Qed.

Lemma price_rules_are_alternatives_witness :
  has_ceiling_word (lower "flats under 500 above 100") = true ∧
  has_floor_word (lower "flats under 500 above 100") = true ∧
  ∃ f, build_filter "flats under 500 above 100" [] = Ok f ∧
       f !! "price" = Some (FOps {[ "$lte" := PInt 500 ]}) ∧
       ∀ amount, ¬ has_constraint f "price" "$gte" amount.
Proof.
  split; [reflexivity |]. split; [reflexivity |].
  destruct (build_filter "flats under 500 above 100" []) as [f|e] eqn:E;
    [|discriminate E].
  exists f. split; [reflexivity |].
  exact (proj1 (price_rules_are_alternatives "flats under 500 above 100" [] f
                  eq_refl E)
               eq_refl).
Defined.

(** C6, refuted as stated: the query has a ceiling trigger and a floor
    trigger, each followed by a number, and the filter holds the ceiling
    only. *)
Lemma both_price_triggers_counterexample :
  price_amount ["under"; "below"] (lower "flats under 500 above 100") = Ok 500%Z ∧
  price_amount ["above"; "over"] (lower "flats under 500 above 100") = Ok 100%Z ∧
  ∃ f, build_filter "flats under 500 above 100" [] = Ok f ∧
       has_constraint f "price" "$lte" (PInt 500) ∧
       ¬ has_constraint f "price" "$gte" (PInt 100).
Proof.
  split; [reflexivity |]. split; [reflexivity |].
  eexists. split; [reflexivity |]. split.
  - eexists. split; reflexivity.
  - intros (ops & Hops & Hgte). vm_compute in Hops. injection Hops as <-.
    vm_compute in Hgte. discriminate Hgte.
Qed.




End Extraction.

(** ** Semantic search *)

Section SemanticSearch.

Context (env : Env).

Implicit Types meta item : gmap string pyval.

Lemma Qeq_bool_sym (x y : Q) : Qeq_bool x y = Qeq_bool y x.
Proof.
  apply eq_true_iff_eq. rewrite !Qeq_bool_iff. split; intros H; by symmetry.
Qed.

Lemma py_eqb_sym (a b : pyval) : py_eqb a b = py_eqb b a.
Proof.
  destruct a, b; simpl; try done.
  - apply Z.eqb_sym.
  - apply Qeq_bool_sym.
  - apply Qeq_bool_sym.
  - apply Qeq_bool_sym.
  - apply String.eqb_sym.
  - apply bool_decide_ext. split; intros H; by symmetry.
Qed.

Lemma key_eqb_sym (k1 k2 : dedup_key) : key_eqb k1 k2 = key_eqb k2 k1.
Proof.
  destruct k1 as [[[b1 l1] p1] a1], k2 as [[[b2 l2] p2] a2]. simpl.
  by rewrite (py_eqb_sym b1), (py_eqb_sym l1), (py_eqb_sym p1), (py_eqb_sym a1).
Qed.

Lemma has_fields_lookup meta k :
  has_fields meta → k ∈ document_fields → ∃ v, meta !! k = Some v.
Proof. intros H Hk. by apply H. Qed.

Lemma key_of_defined meta : has_fields meta → ∃ key, key_of meta = Ok key.
Proof.
  intros H. unfold key_of, getitem.
  destruct (has_fields_lookup meta "bedrooms" H) as [b ->]; [set_solver |].
  destruct (has_fields_lookup meta "location" H) as [l ->]; [set_solver |].
  destruct (has_fields_lookup meta "price" H) as [p ->]; [set_solver |].
  destruct (has_fields_lookup meta "area_sqft" H) as [a ->]; [set_solver |].
  by eexists.
Qed.

Lemma annotate_defined meta score :
  has_fields meta → ∃ item, annotate env meta score = Ok item.
Proof.
  intros H. unfold annotate, getitem. rewrite !lookup_insert_ne by done.
  destruct (has_fields_lookup meta "bedrooms" H) as [b ->]; [set_solver |].
  destruct (has_fields_lookup meta "location" H) as [l ->]; [set_solver |].
  destruct (has_fields_lookup meta "area_sqft" H) as [a ->]; [set_solver |].
  destruct (has_fields_lookup meta "price" H) as [p ->]; [set_solver |].
  destruct (has_fields_lookup meta "amenities" H) as [m ->]; [set_solver |].
  by eexists.
Qed.

(** The documents this program puts into the index carry the fields. *)
Lemma create_document_has_fields (apartment : gmap string pyval) (doc : Document) :
  create_document env apartment = Ok doc → has_fields (metadata doc).
Proof.
  unfold create_document. destruct (join_amenities _); [|done].
  cbn [mbind result_bind]. destruct (city_of _); [|done].
  cbn [mbind result_bind mret result_ret]. intros [= <-] k Hk. cbn [metadata].
  unfold document_fields in Hk. rewrite !elem_of_cons, elem_of_nil in Hk.
  destruct Hk as [-> | [-> | [-> | [-> | [-> | []]]]]];
    eexists; by simplify_map_eq.
Qed.

(** The annotation adds two keys and touches no other. *)
Lemma annotate_lookup meta score item :
  annotate env meta score = Ok item →
  item !! "similarity_score" = Some (PFloat (py_round score 4)) ∧
  ∀ k, k ≠ "similarity_score" → k ≠ "summary" → item !! k = meta !! k.
Proof.
  unfold annotate, getitem. rewrite !lookup_insert_ne by done.
  destruct (meta !! "bedrooms"); [|done].
  destruct (meta !! "location"); [|done].
  destruct (meta !! "area_sqft"); [|done].
  destruct (meta !! "price"); [|done].
  destruct (meta !! "amenities"); [|done].
  intros [= <-]. split; [by simplify_map_eq |].
  intros k H1 H2. by simplify_map_eq.
Qed.

Lemma annotate_key meta score item :
  annotate env meta score = Ok item → key_of item = key_of meta.
Proof.
  intros H. destruct (annotate_lookup _ _ _ H) as [_ Hk].
  unfold key_of, getitem. by rewrite !Hk.
Qed.

Lemma dedup_loop_spec (top_k : nat) (results : list (Document * Q)) :
  Forall (fun p => has_fields (metadata p.1)) results →
  ∀ unique filtered, ∃ kept out,
    dedup_loop env results top_k unique filtered = Ok (filtered ++ out) ∧
    kept `sublist_of` results ∧
    Forall2 (emitted env) kept out ∧
    fresh_keys unique (map (fun p => key_of (metadata p.1)) kept) ∧
    (length filtered < top_k → length (filtered ++ out) ≤ top_k).
Proof.
  induction 1 as [|[doc score] rest Hwf _ IH]; intros unique filtered.
  - exists [], []. rewrite app_nil_r. repeat split; [done | constructor | lia].
  - cbn [dedup_loop]. simpl in Hwf.
    destruct (key_of_defined _ Hwf) as [key Hkey]. rewrite Hkey.
    cbn [mbind result_bind]. destruct (key_in key unique) eqn:Ein.
    + cbn [mbind result_bind mret result_ret].
      destruct (top_k <=? length filtered) eqn:Ek.
      * exists [], []. rewrite app_nil_r.
        repeat split; [apply sublist_nil_l | constructor | lia].
      * destruct (IH unique filtered) as (kept & out & Hrun & Hsub & Hem & Hfr & Hlen).
        exists kept, out. repeat split; [done | by apply sublist_cons | done..].
    + destruct (annotate_defined _ score Hwf) as [item Hitem]. rewrite Hitem.
      cbn [mbind result_bind mret result_ret].
      destruct (top_k <=? length (filtered ++ [item])) eqn:Ek.
      * exists [(doc, score)], [item]. repeat split.
        -- apply sublist_skip, sublist_nil_l.
        -- by repeat constructor.
        -- simpl. by rewrite Hkey.
        -- rewrite length_app. simpl. lia.
      * destruct (IH (key :: unique) (filtered ++ [item]))
          as (kept & out & Hrun & Hsub & Hem & Hfr & Hlen).
        exists ((doc, score) :: kept), (item :: out). repeat split.
        -- by rewrite Hrun, (cons_middle item filtered out), (app_assoc filtered).
        -- by apply sublist_skip.
        -- by constructor.
        -- simpl. by rewrite Hkey.
        -- intros _. apply Nat.leb_gt in Ek.
           rewrite (cons_middle item filtered out), (app_assoc filtered).
           by apply Hlen.
Qed.

Lemma fresh_keys_pairwise unique ks :
  fresh_keys unique ks →
  ∀ j kb, ks !! j = Some (Ok kb) →
    key_in kb unique = false ∧
    ∀ i ka, i < j → ks !! i = Some (Ok ka) → key_eqb kb ka = false.
Proof.
  revert unique. induction ks as [|[k|e] ks IH]; intros unique Hfr j kb Hj;
    [done | | done].
  destruct Hfr as [Hk Hfr]. destruct j as [|j].
  - injection Hj as ->. split; [done |]. intros i ka Hi. lia.
  - simpl in Hj. destruct (IH _ Hfr j kb Hj) as [Hin Hearlier].
    simpl in Hin. apply orb_false_iff in Hin as [Hkb Hin]. split; [done |].
    intros [|i] ka Hi Hka.
    + by injection Hka as <-.
    + apply (Hearlier i); [lia | done].
Qed.

Lemma StronglySorted_sublist {A : Type} (R : A → A → Prop) (l1 l2 : list A) :
  l1 `sublist_of` l2 → StronglySorted R l2 → StronglySorted R l1.
Proof.
  induction 1 as [|x l1 l2 Hsub IH|x l1 l2 Hsub IH]; intros Hs; [done | |].
  - apply StronglySorted_inv in Hs as [Hs Hx]. constructor; [by apply IH |].
    eapply Forall_forall. intros y Hy. eapply (proj1 (Forall_forall _ _) Hx).
    by eapply elem_of_sublist.
  - apply StronglySorted_inv in Hs as [Hs _]. by apply IH.
Qed.

(** C4. Whatever neighbours the index returns for [k = 2 * top_k], the
    search returns at most [top_k] items; they are emitted for a
    subsequence of the neighbours, hence in the index's ascending-distance
    order; no two of them have equal dedup keys; and each carries its
    distance rounded to 4 decimal places. *)
Theorem semantic_search_unique_capped (q : string) (top_k : nat)
    (neighbours : list (Document * Q)) :
  similarity_search_with_score env q (top_k * 2) = Ok neighbours →
  length neighbours ≤ top_k * 2 →
  Forall (fun p => has_fields (metadata p.1)) neighbours →
  ∃ kept out,
    chromadb_semantic_search env q top_k = Ok out ∧
    length out ≤ top_k ∧
    kept `sublist_of` neighbours ∧
    (StronglySorted Qle (map snd neighbours) → StronglySorted Qle (map snd kept)) ∧
    Forall2 (fun p item =>
               item !! "similarity_score" = Some (PFloat (py_round p.2 4)) ∧
               ∃ key, key_of item = Ok key ∧ key_of (metadata p.1) = Ok key)
            kept out ∧
    (∀ i j a b ka kb, i ≠ j → out !! i = Some a → out !! j = Some b →
       key_of a = Ok ka → key_of b = Ok kb → key_eqb ka kb = false).
Proof.
  intros Hidx Hlen Hwf. unfold chromadb_semantic_search. rewrite Hidx.
  cbn [mbind result_bind].
  destruct (dedup_loop_spec top_k neighbours Hwf [] [])
    as (kept & out & Hrun & Hsub & Hem & Hfr & Hcap).
  simpl in Hrun, Hcap. exists kept, out. split; [done |].
  assert (Forall (fun p => has_fields (metadata p.1)) kept) as Hwfk.
  { apply Forall_forall. intros p Hp.
    apply (proj1 (Forall_forall _ _) Hwf). by eapply elem_of_sublist. }
  assert (Forall2 (fun p item =>
            item !! "similarity_score" = Some (PFloat (py_round p.2 4)) ∧
            ∃ key, key_of item = Ok key ∧ key_of (metadata p.1) = Ok key)
          kept out) as Hitems.
  { clear -Hem Hwfk. induction Hem as [|p item kept out Hp Hem IH]; [constructor |].
    apply Forall_cons in Hwfk as [Hw Hwfk]. constructor; [|by apply IH].
    split; [by apply (annotate_lookup _ _ _ Hp) |].
    destruct (key_of_defined _ Hw) as [key Hkey]. exists key.
    by rewrite (annotate_key _ _ _ Hp). }
  repeat split.
  - destruct top_k as [|n]; [|apply Hcap; lia].
    destruct neighbours; [|simpl in Hlen; lia].
    apply sublist_nil_r in Hsub as ->. by apply Forall2_nil_inv_l in Hem as ->.
  - done.
  - intros Hs. eapply StronglySorted_sublist; [|exact Hs]. by apply fmap_sublist.
  - done.
  - assert (∀ i j a b ka kb, i < j → out !! i = Some a → out !! j = Some b →
              key_of a = Ok ka → key_of b = Ok kb → key_eqb kb ka = false)
      as Hlt.
    { intros i j a b ka kb Hij Ha Hb Hka Hkb.
      destruct (Forall2_lookup_r _ _ _ _ _ Hitems Ha) as (pa & Hpa & _ & ka' & Hka1 & Hka2).
      destruct (Forall2_lookup_r _ _ _ _ _ Hitems Hb) as (pb & Hpb & _ & kb' & Hkb1 & Hkb2).
      rewrite Hka in Hka1. injection Hka1 as <-.
      rewrite Hkb in Hkb1. injection Hkb1 as <-.
      refine (proj2 (fresh_keys_pairwise _ _ Hfr j kb _) i ka Hij _).
      - by rewrite list_lookup_fmap, Hpb; simpl; rewrite Hkb2.
      - by rewrite list_lookup_fmap, Hpa; simpl; rewrite Hka2. }
    intros i j a b ka kb Hij Ha Hb Hka Hkb.
    destruct (Nat.lt_total i j) as [Hlt' | [-> | Hgt]]; [| done |].
    + rewrite key_eqb_sym. by eapply (Hlt i j).
    + by eapply (Hlt j i).
Qed.

End SemanticSearch.

(** ** The query handler and the envelope *)

Section Handler.

Context (env : Env).

Lemma enrich_keys (item : gmap string pyval) (enriched : gmap string pyobj) :
  enrich env item = Ok enriched →
  enriched !! "details" = Some (PDict (details_of item)) ∧
  enriched !! "similarity_score" = None ∧
  enriched !! "type" = None.
Proof.
  unfold enrich. destruct (item !! "similarity_score") as [score|].
  - destruct (py_format_2f env score); [|done].
    cbn [mbind result_bind mret result_ret]. intros [= <-]. by simplify_map_eq.
  - cbn [mbind result_bind mret result_ret]. intros [= <-]. by simplify_map_eq.
Qed.

(** A record that carries no similarity score is always enriched. *)
Lemma enrich_defined (item : gmap string pyval) :
  item !! "similarity_score" = None → ∃ enriched, enrich env item = Ok enriched.
Proof. intros H. unfold enrich. rewrite H. by eexists. Qed.

Lemma details_of_lookup (item : gmap string pyval) (k : string) :
  k ∈ document_fields → details_of item !! k = Some (get item k PNone).
Proof.
  unfold document_fields, details_of. rewrite !elem_of_cons, elem_of_nil.
  intros [-> | [-> | [-> | [-> | [-> | []]]]]]; by simplify_map_eq.
Qed.

Lemma enrich_all_items (rs : list (gmap string pyval)) (items : list (gmap string pyobj)) :
  enrich_all env rs = Ok items →
  Forall2 (fun r item => enrich env r = Ok item) rs items.
Proof.
  revert items. induction rs as [|r rs IH]; intros items; simpl.
  - intros [= <-]. constructor.
  - destruct (enrich env r) as [item|] eqn:E; [|done].
    cbn [mbind result_bind]. destruct (enrich_all env rs) as [items'|]; [|done].
    cbn [mbind result_bind mret result_ret]. intros [= <-].
    constructor; [done | by apply IH].
Qed.

(** What the handler returns: the greeting alone, the apology alone, or a
    header followed by one item per retrieved record, in retrieval order. *)
Lemma handle_user_query_shape (q : string) (top_k : nat)
    (matches : list (gmap string pyobj)) :
  handle_user_query env q top_k = Ok matches →
  ∃ locs, get_unique_locations env = Ok locs ∧
    let intent := classify_user_query q locs in
    (intent = "greeting" ∧ matches = [greeting_item]) ∨
    (intent ≠ "greeting" ∧ ∃ rs,
       retrieve env intent q locs top_k = Ok rs ∧
       ((rs = [] ∧ matches = [no_results_item]) ∨
        (rs ≠ [] ∧ ∃ items,
           enrich_all env rs = Ok items ∧
           matches = header_item (header_text intent q locs) :: items))).
Proof.
  unfold handle_user_query.
  destruct (get_unique_locations env) as [locs|]; [|done].
  cbn [mbind result_bind]. intros H. exists locs. split; [done |]. cbn zeta.
  destruct (String.eqb_spec (classify_user_query q locs) "greeting") as [Hg | Hg].
  - left. by injection H as <-.
  - right. split; [done |].
    destruct (retrieve env _ q locs top_k) as [rs|]; [|done].
    cbn [mbind result_bind] in H. exists rs. split; [done |].
    destruct rs as [|r rs].
    + left. simpl in H. by injection H as <-.
    + right. split; [done |].
      destruct (enrich_all env (r :: rs)) as [items|] eqn:E; [|done].
      cbn [mbind result_bind] in H.
      pose proof (enrich_all_items _ _ E) as HF.
      destruct items as [|i items]; [by apply Forall2_nil_inv_r in HF |].
      exists (i :: items). split; [done |].
      destruct (negb (is_empty (header_text _ q locs))) eqn:Eh.
      * by injection H as <-.
      * exfalso. unfold header_text in Eh.
        repeat match type of Eh with
               | context [if ?c then _ else _] => destruct c
               end; discriminate Eh.
Qed.

(** The handler never returns an empty list: the first branch of
    [get_chat_response] is never taken. *)
Lemma handle_user_query_nonempty (q : string) (top_k : nat)
    (matches : list (gmap string pyobj)) :
  handle_user_query env q top_k = Ok matches → matches ≠ [].
Proof.
  intros H. destruct (handle_user_query_shape _ _ _ H)
    as (locs & _ & [[_ ->] | (_ & rs & _ & [[_ ->] | (_ & items & _ & ->)])]);
    done.
Qed.

Lemma result_item_keys (m r : gmap string pyobj) :
  result_item env m = Ok r →
  r !! "summary" = Some (get m "summary" (PVal (PStr "No summary available."))) ∧
  ∃ x, py_float env (get m "similarity_score" (PVal (PInt 0))) = Ok x ∧
       r !! "similarity_score" = Some (PVal (PFloat (py_round x 3))).
Proof.
  unfold result_item. destruct (py_float _) as [x|]; [|done].
  cbn [mbind result_bind mret result_ret]. intros [= <-].
  split; [by simplify_map_eq |]. exists x. by simplify_map_eq.
Qed.

Lemma result_items_each (ms rs : list (gmap string pyobj)) :
  result_items env ms = Ok rs → Forall2 (fun m r => result_item env m = Ok r) ms rs.
Proof.
  revert rs. induction ms as [|m ms IH]; intros rs; simpl.
  - intros [= <-]. constructor.
  - destruct (result_item env m) as [r|] eqn:E; [|done].
    cbn [mbind result_bind]. destruct (result_items env ms) as [rs'|]; [|done].
    cbn [mbind result_bind mret result_ret]. intros [= <-].
    constructor; [done | by apply IH].
Qed.

(** No item the handler returns has a [similarity_score] key: the score
    the semantic search attached stays behind in the retrieved item. *)
Lemma handle_user_query_no_score (q : string) (top_k : nat)
    (matches : list (gmap string pyobj)) :
  handle_user_query env q top_k = Ok matches →
  Forall (fun m => m !! "similarity_score" = None) matches.
Proof.
  intros H. destruct (handle_user_query_shape _ _ _ H)
    as (locs & _ & [[_ ->] | (_ & rs & _ & [[_ ->] | (_ & items & Hi & ->)])]).
  - by repeat constructor.
  - by repeat constructor.
  - constructor; [done |]. apply enrich_all_items in Hi.
    clear -Hi. induction Hi as [|r item rs items Hr _ IH]; constructor; [|done].
    by apply (enrich_keys _ _ Hr).
Qed.

Lemma get_chat_response_success (q : string) (e : Envelope) :
  get_chat_response env q = Ok e → status e = "success" →
  ∃ matches, handle_user_query env q 5 = Ok matches ∧
             result_items env matches = Ok (results e).
Proof.
  unfold get_chat_response.
  destruct (handle_user_query env q 5) as [matches|]; [|done].
  cbn [mbind result_bind]. destruct matches as [|first rest].
  - intros [= <-]. done.
  - destruct (is_greeting first).
    + destruct (getitem first "summary"); cbn [mbind result_bind mret result_ret];
        [|done]. intros [= <-]. done.
    + destruct (result_items env (first :: rest)) as [rs|] eqn:E;
        cbn [mbind result_bind mret result_ret]; [|done].
      intros [= <-] _. by exists (first :: rest).
Qed.

End Handler.

Section Envelope.

Context (env : Env).

(** C1 (what the code does). When the selected retrieval returns no
    record, the handler returns the apology as a one-item list and
    [get_chat_response] wraps it as a [success] envelope with one result:
    the [no_results] status is not produced. *)
Theorem empty_retrieval_reported_as_success (q : string) (locs : list string) :
  get_unique_locations env = Ok locs →
  classify_user_query q locs ≠ "greeting" →
  retrieve env (classify_user_query q locs) q locs 5 = Ok [] →
  handle_user_query env q 5 = Ok [no_results_item] ∧
  get_chat_response env q =
    Ok {| status := "success"; message := None; query := Some q;
          results := [apology_result] |}.
Proof.
  intros Hl Hg Hr.
  assert (handle_user_query env q 5 = Ok [no_results_item]) as Hh.
  { unfold handle_user_query. rewrite Hl. cbn [mbind result_bind].
    destruct (String.eqb_spec (classify_user_query q locs) "greeting"); [done |].
    by rewrite Hr. }
  split; [done |]. unfold get_chat_response. rewrite Hh. reflexivity.
Qed.

(** C2 (as the code has it). Every result item of a [success] envelope
    carries a [similarity_score], whichever strategy served the query. *)
Theorem success_items_always_carry_a_score (q : string) (e : Envelope) :
  get_chat_response env q = Ok e →
  status e = "success" →
  Forall (fun item => is_Some (item !! "similarity_score")) (results e).
Proof.
  intros He Hs. destruct (get_chat_response_success env q e He Hs) as (ms & _ & Hrs).
  apply result_items_each in Hrs. revert Hrs. generalize (results e).
  induction ms as [|m ms IH]; intros rs Hrs.
  - apply Forall2_nil_inv_l in Hrs as ->. constructor.
  - apply Forall2_cons_inv_l in Hrs as (r & rs' & Hr & Hrs & ->).
    constructor; [|by apply IH].
    destruct (result_item_keys env _ _ Hr) as (_ & x & _ & ->). by eexists.
Qed.

(** X26. The score of every item of a [success] envelope is the default,
    [0.0], also for the items of a semantic search: the score attached by
    the search is not carried into the envelope. *)
Lemma success_scores_are_zero (q : string) (e : Envelope) :
  get_chat_response env q = Ok e →
  status e = "success" →
  Forall (fun item => item !! "similarity_score" = Some (PVal (PFloat (py_round 0 3))))
         (results e).
Proof.
  intros He Hs. destruct (get_chat_response_success env q e He Hs) as (ms & Hms & Hrs).
  apply handle_user_query_no_score in Hms.
  apply result_items_each in Hrs. revert Hrs Hms. generalize (results e).
  induction ms as [|m ms IH]; intros rs Hrs Hms.
  - apply Forall2_nil_inv_l in Hrs as ->. constructor.
  - apply Forall2_cons_inv_l in Hrs as (r & rs' & Hr & Hrs & ->).
    apply Forall_cons in Hms as [Hm Hms].
    constructor; [|by apply IH].
    destruct (result_item_keys env _ _ Hr) as (_ & x & Hx & ->).
    unfold get in Hx. rewrite Hm in Hx. simpl in Hx. by injection Hx as <-.
Qed.

(** C3 (as the code has it). The [details] of a formatted item repeat the
    five fields of the item that was retrieved. On the sort and filter
    paths that item is the stored record; on the semantic path it is the
    metadata of the record's document, where bedrooms, location, price and
    area are the record's and the amenities are its list joined by [", "]. *)
Theorem details_reflect_retrieved_item (apartment : gmap string pyval)
    (amenities : list string) :
  is_apartment apartment amenities →
  (∀ enriched, enrich env apartment = Ok enriched →
     ∃ d, enriched !! "details" = Some (PDict d) ∧
          ∀ k, k ∈ document_fields → d !! k = apartment !! k) ∧
  (∃ doc, create_document env apartment = Ok doc ∧
     ∀ score, ∃ item, annotate env (metadata doc) score = Ok item ∧
       ∀ enriched, enrich env item = Ok enriched →
         ∃ d, enriched !! "details" = Some (PDict d) ∧
              d !! "bedrooms" = apartment !! "bedrooms" ∧
              d !! "location" = apartment !! "location" ∧
              d !! "price" = apartment !! "price" ∧
              d !! "area_sqft" = apartment !! "area_sqft" ∧
              d !! "amenities" = Some (PStr (join ", " amenities))).
Proof.
  intros ([b Hb] & [s Hs] & [p Hp] & [a Ha] & Hm). split.
  - intros enriched He. exists (details_of apartment).
    split; [by apply (enrich_keys env _ _ He) |].
    intros k Hk. rewrite (details_of_lookup _ _ Hk). unfold get.
    unfold document_fields in Hk. rewrite !elem_of_cons, elem_of_nil in Hk.
    destruct Hk as [-> | [-> | [-> | [-> | [-> | []]]]]];
      by rewrite ?Hb, ?Hs, ?Hp, ?Ha, ?Hm.
  - unfold create_document, get. rewrite Hb, Hs, Hp, Ha, Hm. simpl.
    assert (∃ city, city_of (PStr s) = Ok city) as [city ->].
    { unfold city_of. destruct (py_truthy (PStr s)); by eexists. }
    cbn [mbind result_bind mret result_ret]. eexists. split; [reflexivity |].
    intros score. cbn [metadata]. unfold annotate, getitem.
    rewrite !lookup_insert_ne by done. simplify_map_eq.
    eexists. split; [reflexivity |].
    intros enriched He. eexists.
    split; [by apply (enrich_keys env _ _ He) |].
    rewrite !details_of_lookup by set_solver. unfold get.
    by simplify_map_eq.
Qed.

End Envelope.

(** ** The handler on concrete data *)

Section Examples.

Lemma has_fields_check (meta : gmap string pyval) :
  forallb (fun k => bool_decide (is_Some (meta !! k))) document_fields = true →
  has_fields meta.
Proof.
  intros H k Hk. rewrite forallb_forall in H.
  apply list_elem_of_In in Hk. specialize (H k Hk).
  by apply bool_decide_eq_true in H.
Qed.

Lemma empty_retrieval_reported_as_success_witness :
  get_chat_response empty_env "flat" =
    Ok {| status := "success"; message := None; query := Some "flat";
          results := [apology_result] |}.
Proof.
  refine (proj2 (empty_retrieval_reported_as_success empty_env "flat" [] _ _ _)).
  - reflexivity.
  - discriminate.
  - reflexivity.
Defined.

Lemma success_items_always_carry_a_score_witness :
  ∃ e, get_chat_response two_flats "cheapest flat" = Ok e ∧
       Forall (fun item => is_Some (item !! "similarity_score")) (results e).
Proof.
  assert (match get_chat_response two_flats "cheapest flat" with
          | Ok e => String.eqb (status e) "success"
          | Raise _ => false
          end = true) as H by (vm_compute; reflexivity).
  destruct (get_chat_response two_flats "cheapest flat") as [e|] eqn:E;
    [|discriminate H].
  apply String.eqb_eq in H. exists e. split; [reflexivity |].
  exact (success_items_always_carry_a_score two_flats "cheapest flat" e E H).
Defined.

(** C2, refuted as stated: the query is served by a sort, the envelope is
    a [success], and its items carry a similarity score. *)
Lemma sorted_items_carry_a_score_counterexample :
  classify_user_query "cheapest flat" ["Baner, Pune"; "Andheri, Mumbai"]
    = "sort_by_price_asc" ∧
  ∃ e, get_chat_response two_flats "cheapest flat" = Ok e ∧
       status e = "success" ∧
       length (results e) = 3 ∧
       Forall (fun item => item !! "similarity_score" = Some (PVal (PFloat 0)))
              (results e).
Proof.
  split; [reflexivity |]. eexists. split; [vm_compute; reflexivity |].
  split; [reflexivity |]. split; [reflexivity |].
  repeat constructor.
Qed.

Lemma baner_is_apartment : is_apartment baner ["Gym"; "Parking"].
Proof. unfold is_apartment. repeat split; by eexists. Qed.

Lemma details_reflect_retrieved_item_witness :
  is_apartment baner ["Gym"; "Parking"] ∧
  ∃ doc, create_document two_flats baner = Ok doc ∧
    ∀ score, ∃ item, annotate two_flats (metadata doc) score = Ok item ∧
      ∀ enriched, enrich two_flats item = Ok enriched →
        ∃ d, enriched !! "details" = Some (PDict d) ∧
             d !! "bedrooms" = baner !! "bedrooms" ∧
             d !! "location" = baner !! "location" ∧
             d !! "price" = baner !! "price" ∧
             d !! "area_sqft" = baner !! "area_sqft" ∧
             d !! "amenities" = Some (PStr (join ", " ["Gym"; "Parking"])).
Proof.
  split; [exact baner_is_apartment |].
  exact (proj2 (details_reflect_retrieved_item two_flats baner ["Gym"; "Parking"]
                  baner_is_apartment)).
Defined.

(** C3, refuted as stated: on the semantic path the [details] hold the
    amenities as one joined string, not the record's list. *)
Lemma semantic_details_counterexample :
  classify_user_query "flat" ["Baner, Pune"; "Andheri, Mumbai"] = "semantic_search" ∧
  ∃ matches item d,
    handle_user_query two_flats "flat" 5 = Ok matches ∧
    matches !! 1 = Some item ∧
    item !! "details" = Some (PDict d) ∧
    d !! "location" = baner !! "location" ∧
    d !! "amenities" = Some (PStr "Gym, Parking") ∧
    d !! "amenities" ≠ baner !! "amenities".
Proof.
  split; [vm_compute; reflexivity |].
  pose (matches := match handle_user_query two_flats "flat" 5 with
                   | Ok ms => ms
                   | Raise _ => []
                   end).
  pose (item := default (∅ : gmap string pyobj) (matches !! 1)).
  pose (d := match item !! "details" with
             | Some (PDict d) => d
             | _ => ∅
             end).
  exists matches, item, d.
  split; [vm_compute; reflexivity |]. split; [vm_compute; reflexivity |].
  split; [vm_compute; reflexivity |]. split; [vm_compute; reflexivity |].
  split; [vm_compute; reflexivity |].
  vm_compute. discriminate.
Qed.

Lemma semantic_search_unique_capped_witness :
  ∃ out, chromadb_semantic_search two_flats "flat" 2 = Ok out ∧
         length out ≤ 2 ∧
         (∀ i j a b ka kb, i ≠ j → out !! i = Some a → out !! j = Some b →
            key_of a = Ok ka → key_of b = Ok kb → key_eqb ka kb = false).
Proof.
  destruct (semantic_search_unique_capped two_flats "flat" 2
              (Mem.indexed [baner; baner; andheri]
                           [(21 # 50)%Q; (21 # 50)%Q; (3 # 4)%Q]))
    as (kept & out & Hrun & Hlen & _ & _ & _ & Huniq).
  - reflexivity.
  - vm_compute. lia.
  - repeat constructor; apply has_fields_check; reflexivity.
  - exists out. split; [exact Hrun |]. split; [exact Hlen | exact Huniq].
Defined.

End Examples.

(** * Further properties *)

(** ** Case and blanks *)

Section CaseAndBlanks.

Implicit Types s t : string.

Lemma lower_char_idem (c : ascii) : lower_char (lower_char c) = lower_char c.
Proof. destruct c as [[] [] [] [] [] [] [] []]; reflexivity. Qed.

Lemma is_space_lower_char (c : ascii) : is_space (lower_char c) = is_space c.
Proof. destruct c as [[] [] [] [] [] [] [] []]; reflexivity. Qed.

Lemma lower_idem s : lower (lower s) = lower s.
Proof.
  induction s as [|c s IH]; [done |]. simpl. by rewrite lower_char_idem, IH.
Qed.

Lemma is_empty_lower s : is_empty (lower s) = is_empty s.
Proof. by destruct s. Qed.

Lemma lower_lstrip s : lower (lstrip s) = lstrip (lower s).
Proof.
  induction s as [|c s IH]; [done |]. simpl. rewrite is_space_lower_char.
  by destruct (is_space c).
Qed.

Lemma lower_rstrip s : lower (rstrip s) = rstrip (lower s).
Proof.
  induction s as [|c s IH]; [done |]. simpl.
  rewrite is_space_lower_char, <- IH, is_empty_lower.
  by destruct (is_space c && is_empty (rstrip s)).
Qed.

Lemma lower_strip s : lower (strip s) = strip (lower s).
Proof. unfold strip. by rewrite lower_rstrip, lower_lstrip. Qed.

Lemma rstrip_idem s : rstrip (rstrip s) = rstrip s.
Proof.
  induction s as [|c s IH]; [done |]. simpl.
  destruct (is_space c && is_empty (rstrip s)) eqn:E; [done |].
  simpl. by rewrite IH, E.
Qed.

Lemma lstrip_head s c r : lstrip s = String c r → is_space c = false.
Proof.
  induction s as [|a s IH]; [done |]. simpl.
  destruct (is_space a) eqn:E; [done |]. by intros [= <- _].
Qed.

(** What is left after stripping is empty or solid. *)
Lemma strip_empty_or_solid s : is_empty (strip s) || solid (strip s) = true.
Proof.
  unfold strip. destruct (lstrip s) as [|c r] eqn:E; [done |].
  pose proof (lstrip_head _ _ _ E) as Hc.
  unfold solid. rewrite rstrip_idem, String.eqb_refl.
  simpl. rewrite Hc. simpl. by rewrite Hc.
Qed.

Lemma str_in_empty s : str_in "" s = true.
Proof. by destruct s. Qed.

Lemma str_in_strip_clean t s :
  is_empty t || solid t = true → str_in t (strip s) = str_in t s.
Proof.
  destruct t as [|c t]; [by rewrite !str_in_empty |].
  simpl. apply str_in_strip.
Qed.

End CaseAndBlanks.

(** ** More on the location resolver *)

Section ResolverMore.

Implicit Types m : list (string * string).

Lemma first_where_ext (f g : string → bool) m :
  (∀ k v, (k, v) ∈ m → f k = g k) → first_where f m = first_where g m.
Proof.
  induction m as [|[k v] m IH]; intros H; [done |]. simpl.
  rewrite (H k v) by by left. destruct (g k); [done |].
  apply IH. intros k' v' Hin. apply (H k' v'). by right.
Qed.

Lemma alias_loop_ext (q q' : string) m (aliases : list string) :
  (∀ a, a ∈ aliases → str_in a q = str_in a q') →
  alias_loop q m aliases = alias_loop q' m aliases.
Proof.
  induction aliases as [|a rest IH]; intros H; [done |]. simpl.
  rewrite (H a) by by left.
  rewrite IH; [done |]. intros a' Hin. apply H. by right.
Qed.

(** What the resolver returns is a known location that answers the query. *)
Lemma extract_location_sound (q : string) (locs : list string) (r : string) :
  extract_location_from_query q locs = Some r →
  r ∈ locs ∧
  (full_match q r = true ∨ city_match q r = true ∨ alias_match q r = true).
Proof.
  unfold extract_location_from_query. cbn zeta.
  remember (alias_loop (lower q) (location_map locs) (concat (map snd city_aliases)))
    as found eqn:E3.
  destruct (first_where (fun loc_lower => str_in loc_lower (lower q))
                        (location_map locs)) as [r1|] eqn:E1.
  { intros [= ->]. destruct (first_where_Some _ _ _ E1) as (k & Hk & Ht).
    destruct (location_map_elem _ _ _ Hk) as [Hv ->]. split; [done |]. by left. }
  destruct (first_where (fun loc_lower => str_in (city_part loc_lower) (lower q))
                        (location_map locs)) as [r2|] eqn:E2.
  { intros [= ->]. destruct (first_where_Some _ _ _ E2) as (k & Hk & Ht).
    destruct (location_map_elem _ _ _ Hk) as [Hv ->]. split; [done |].
    right. by left. }
  intros ->. symmetry in E3.
  destruct (alias_loop_Some _ _ _ _ E3) as (a & k & Ha & Hq & Hk & Hl).
  destruct (location_map_elem _ _ _ Hk) as [Hv ->]. split; [done |].
  right. right. apply alias_match_spec. eauto.
Qed.

(** X1. The resolver never invents a location: what it returns is one of
    the known locations, and on ASCII text that location answers the query
    at one of the three stages. *)
Theorem resolver_returns_known_location (q : string) (locs : list string)
    (r : string) :
  extract_location_from_query q locs = Some r →
  r ∈ locs ∧
  (is_ascii q = true → all_ascii locs = true →
   full_match q r = true ∨ city_match q r = true ∨ alias_match q r = true).
Proof.
  intros H. destruct (extract_location_sound q locs r H) as [Hin Hm].
  split; [exact Hin |]. intros _ _. exact Hm.
Qed.

Lemma resolver_returns_known_location_witness :
  "Bandra, Bombay" ∈ ["Koregaon Park, Pune"; "Bandra, Bombay"] ∧
  (full_match "flat at bombay" "Bandra, Bombay" = true ∨
   city_match "flat at bombay" "Bandra, Bombay" = true ∨
   alias_match "flat at bombay" "Bandra, Bombay" = true).
Proof.
  destruct (resolver_returns_known_location "flat at bombay"
              ["Koregaon Park, Pune"; "Bandra, Bombay"] "Bandra, Bombay" eq_refl)
    as [Hin Hm].
  exact (conj Hin (Hm eq_refl eq_refl)).
Defined.

(** X2. The resolver does not depend on the case of the query: lowering it
    beforehand, as [filter_based_search] does, changes nothing. *)
Theorem resolver_case_insensitive (q : string) (locs : list string) :
  extract_location_from_query (lower q) locs = extract_location_from_query q locs.
Proof. unfold extract_location_from_query. by rewrite lower_idem. Qed.

(** Stripping the lowercased query does not change the answer when the
    known locations are clean. *)
Lemma resolver_strip_agrees (q : string) (locs : list string) :
  (∀ loc, loc ∈ locs → clean loc = true) →
  extract_location_from_query (strip (lower q)) locs =
  extract_location_from_query q locs.
Proof.
  intros Hclean. unfold extract_location_from_query. cbn zeta.
  rewrite lower_strip, lower_idem.
  rewrite (first_where_ext
             (fun loc_lower => str_in loc_lower (strip (lower q)))
             (fun loc_lower => str_in loc_lower (lower q))).
  2:{ intros k v Hk. destruct (location_map_elem _ _ _ Hk) as [Hv ->].
      apply str_in_strip_clean, (Hclean v Hv). }
  rewrite (first_where_ext
             (fun loc_lower => str_in (city_part loc_lower) (strip (lower q)))
             (fun loc_lower => str_in (city_part loc_lower) (lower q))).
  2:{ intros k v _. apply str_in_strip_clean, strip_empty_or_solid. }
  rewrite (alias_loop_ext (strip (lower q)) (lower q)); [done |].
  intros a Ha. apply str_in_strip.
  revert a Ha. apply Forall_forall. by repeat constructor.
Qed.

(** X3. On ASCII text, when no known location begins or ends with a
    blank, the location the classifier resolves from the stripped,
    lowercased text is the one the sort handler, the filter and the header
    resolve from the query as it was typed. *)
Theorem resolver_ignores_outer_blanks (q : string) (locs : list string) :
  is_ascii q = true →
  all_ascii locs = true →
  (∀ loc, loc ∈ locs → clean loc = true) →
  extract_location_from_query (strip (lower q)) locs =
  extract_location_from_query q locs.
Proof. intros _ _. apply resolver_strip_agrees. Qed.

Lemma resolver_ignores_outer_blanks_witness :
  extract_location_from_query (strip (lower "  Flat in BANER, pune  "))
    ["Baner, Pune"; "Andheri, Mumbai"] =
  extract_location_from_query "  Flat in BANER, pune  "
    ["Baner, Pune"; "Andheri, Mumbai"].
Proof.
  apply resolver_ignores_outer_blanks; [reflexivity | reflexivity |].
  apply Forall_forall. by repeat constructor.
Defined.

End ResolverMore.

(** ** More on the classifier *)

Section ClassifierMore.

Local Ltac elem_of_literal := apply (bool_decide_unpack _); by vm_compute.

(** X4. The classifier returns one of eleven fixed strings, whatever the
    query and the known locations. *)
Theorem classify_returns_known_intent (q : string) (locs : list string) :
  classify_user_query q locs ∈ intents.
Proof.
  unfold classify_user_query. cbn zeta.
  repeat match goal with
         | |- context [if ?c then _ else _] => destruct c
         end; elem_of_literal.
Qed.

(** X5. A sort intent is location-qualified exactly when the resolver
    finds a non-empty location in the stripped, lowercased query. *)
Theorem qualified_iff_location_resolved (q : string) (locs : list string) :
  (classify_user_query q locs ∈ qualified_sort_intents →
   truthy (extract_location_from_query (strip (lower q)) locs) = true) ∧
  (classify_user_query q locs ∈ plain_sort_intents →
   truthy (extract_location_from_query (strip (lower q)) locs) = false).
Proof.
  unfold classify_user_query. cbn zeta.
  destruct (truthy (extract_location_from_query (strip (lower q)) locs));
    (split; [| ]); intros H; try done; exfalso; revert H;
    repeat match goal with
           | |- context [if ?c then _ else _] => destruct c
           end;
    intros H; apply (bool_decide_pack _) in H; by vm_compute in H.
Qed.

Lemma qualified_iff_location_resolved_witness :
  truthy (extract_location_from_query (strip (lower "Cheapest flat in Baner, Pune"))
            ["Baner, Pune"]) = true ∧
  truthy (extract_location_from_query (strip (lower "cheapest flat"))
            ["Baner, Pune"]) = false.
Proof.
  split.
  - apply (proj1 (qualified_iff_location_resolved "Cheapest flat in Baner, Pune"
                    ["Baner, Pune"])).
    apply (bool_decide_unpack _). by vm_compute.
  - apply (proj2 (qualified_iff_location_resolved "cheapest flat" ["Baner, Pune"])).
    apply (bool_decide_unpack _). by vm_compute.
Defined.

(** X6. The classifier does not depend on the case of the query. *)
Theorem classify_case_insensitive (q : string) (locs : list string) :
  classify_user_query (lower q) locs = classify_user_query q locs.
Proof. unfold classify_user_query. by rewrite lower_idem. Qed.

(** A superlative phrase in the lowercased query selects a sort intent. *)
Lemma superlative_selects_sort (q : string) (locs : list string)
    (p : string) :
  (∀ g, g ∈ greetings → str_in g (lower q) = false) →
  p ∈ sort_phrases → str_in p (lower q) = true →
  classify_user_query q locs ∈ qualified_sort_intents ++ plain_sort_intents.
Proof.
  intros Hg Hp Hin. rewrite classify_user_query_unfold.
  apply existsb_false in Hg. rewrite Hg. cbn zeta.
  destruct (re_search_alt price_desc_phrases (lower q)) eqn:E1;
    [destruct (truthy _); elem_of_literal |].
  destruct (re_search_alt price_asc_phrases (lower q)) eqn:E2;
    [destruct (truthy _); elem_of_literal |].
  destruct (re_search_alt area_desc_phrases (lower q)) eqn:E3;
    [destruct (truthy _); elem_of_literal |].
  destruct (re_search_alt area_asc_phrases (lower q)) eqn:E4;
    [destruct (truthy _); elem_of_literal |].
  exfalso. unfold re_search_alt in *. rewrite existsb_false in E1, E2, E3, E4.
  unfold sort_phrases in Hp. rewrite !elem_of_app in Hp.
  destruct Hp as [Hp | [Hp | [Hp | Hp]]];
    [rewrite (E1 p Hp) in Hin | rewrite (E2 p Hp) in Hin
     | rewrite (E3 p Hp) in Hin | rewrite (E4 p Hp) in Hin]; done.
Qed.

(** X7. A superlative phrase outranks the filter words: a query of ASCII
    text with no greeting phrase that contains one is a sort query, also
    when it names bedrooms, a price bound or amenities. *)
Theorem superlative_outranks_filter_words (q : string) (locs : list string)
    (p : string) :
  is_ascii q = true →
  (∀ g, g ∈ greetings → str_in g (lower q) = false) →
  p ∈ sort_phrases → str_in p (lower q) = true →
  classify_user_query q locs ∈ qualified_sort_intents ++ plain_sort_intents.
Proof. intros _. apply superlative_selects_sort. Qed.

Lemma superlative_outranks_filter_words_witness :
  classify_user_query "cheapest 2 bhk in Pune under 5000 with gym" ["Baner, Pune"]
    ∈ qualified_sort_intents ++ plain_sort_intents.
Proof.
  apply (superlative_outranks_filter_words _ _ "cheapest").
  - reflexivity.
  - apply existsb_false. reflexivity.
  - apply (bool_decide_unpack _). by vm_compute.
  - reflexivity.
Defined.

End ClassifierMore.

(** ** More on filter extraction *)

Section ExtractionMore.

Local Ltac filter_cases q :=
  unfold build_filter, price_clause; cbn zeta;
  destruct (re_search_bhk (lower q)) as [g|] eqn:Eb;
    [rewrite (re_search_bhk_int _ _ Eb) |];
    cbn [mbind result_bind mret result_ret];
    destruct (truthy _);
    destruct (_ || _);
    [ destruct (price_amount _ _) | destruct (_ || _); [destruct (price_amount _ _) |]
    | destruct (price_amount _ _) | destruct (_ || _); [destruct (price_amount _ _) |]
    | destruct (price_amount _ _) | destruct (_ || _); [destruct (price_amount _ _) |]
    | destruct (price_amount _ _) | destruct (_ || _); [destruct (price_amount _ _) |] ];
    cbn [mbind result_bind mret result_ret try_pass];
    destruct (wanted_amenities _).

(** X8. The filter handed to the store has no key other than [bedrooms],
    [location], [price] and [amenities]. *)
Theorem build_filter_keys (q : string) (locs : list string)
    (f : gmap string fval) (k : string) :
  build_filter q locs = Ok f → is_Some (f !! k) → k ∈ filter_keys.
Proof.
  filter_cases q; intros [= <-] [c Hc];
    repeat (rewrite lookup_insert in Hc; case_decide;
            [subst k; apply (bool_decide_unpack _); by vm_compute |]);
    by rewrite lookup_empty in Hc.
Qed.

Lemma build_filter_keys_witness :
  ∃ f, build_filter "flats under 500" [] = Ok f ∧
       is_Some (f !! "price") ∧ "price" ∈ filter_keys.
Proof.
  destruct (build_filter "flats under 500" []) as [f|] eqn:E; [|discriminate E].
  assert (is_Some (f !! "price")) as Hk.
  { vm_compute in E. injection E as <-. by eexists. }
  exists f. split; [reflexivity |]. split; [exact Hk |].
  exact (build_filter_keys "flats under 500" [] f "price" E Hk).
Defined.

Lemma digit_value_range (d : ascii) :
  is_digit d = true → (0 ≤ digit_value d ≤ 9)%Z.
Proof.
  unfold is_digit, digit_value. rewrite andb_true_iff, !Nat.leb_le. lia.
Qed.

(** X9. The bedroom constraint is an exact integer read from one digit:
    it lies between 0 and 9, whatever number the query wrote before
    ["bhk"]. *)
Theorem bedrooms_is_one_digit (q : string) (locs : list string)
    (f : gmap string fval) (c : fval) :
  build_filter q locs = Ok f →
  f !! "bedrooms" = Some c →
  ∃ n, c = FExact (PInt n) ∧ (0 ≤ n ≤ 9)%Z.
Proof.
  intros Hf Hc. destruct (build_filter_lookups q locs) as (f' & Hf' & Hb & _).
  rewrite Hf in Hf'. injection Hf' as <-. rewrite Hb in Hc.
  destruct (re_search_bhk (lower q)) as [g|] eqn:Eg; [|done].
  destruct (re_search_bhk_digit _ _ Eg) as (d & -> & Hd).
  injection Hc as <-. eexists. split; [done |]. simpl.
  by apply digit_value_range.
Qed.

Lemma bedrooms_is_one_digit_witness :
  ∃ n, FExact (PInt 2) = FExact (PInt n) ∧ (0 ≤ n ≤ 9)%Z.
Proof.
  exact (bedrooms_is_one_digit "12 BHK flat" [] _ (FExact (PInt 2)) eq_refl eq_refl).
Defined.

Lemma int_of_digits_nonneg (s : string) (acc : Z) :
  (0 ≤ acc)%Z → (0 ≤ int_of_digits acc s)%Z.
Proof.
  revert acc. induction s as [|c s IH]; intros acc Hacc; [done |].
  simpl. apply IH. unfold digit_value. lia.
Qed.

Lemma price_amount_nonneg (words : list string) (query : string) (amount : Z) :
  price_amount words query = Ok amount → (0 ≤ amount)%Z.
Proof.
  unfold price_amount. destruct (group_2 _) as [digits|]; [|done].
  cbn [mbind result_bind]. unfold py_int.
  destruct (_ || _); [done |]. destruct (_ <? _); [done |].
  intros [= <-]. by apply int_of_digits_nonneg.
Qed.

(** X10. A price constraint of the filter has one operator, [$lte] or
    [$gte], and its bound is a non-negative integer. *)
Theorem price_constraint_shape (q : string) (locs : list string)
    (f : gmap string fval) (c : fval) :
  build_filter q locs = Ok f →
  f !! "price" = Some c →
  ∃ op amount, c = FOps {[ op := PInt amount ]} ∧
               (op = "$lte" ∨ op = "$gte") ∧ (0 ≤ amount)%Z.
Proof.
  intros Hf Hc. destruct (build_filter_lookups q locs) as (f' & Hf' & _ & _ & Hp & _).
  rewrite Hf in Hf'. injection Hf' as <-. rewrite Hp in Hc.
  destruct (has_ceiling_word (lower q)).
  - destruct (price_amount _ _) as [amount|] eqn:E; [|done]. injection Hc as <-.
    exists "$lte", amount. split; [done |]. split; [by left |].
    by apply (price_amount_nonneg _ _ _ E).
  - destruct (has_floor_word (lower q)); [|done].
    destruct (price_amount _ _) as [amount|] eqn:E; [|done]. injection Hc as <-.
    exists "$gte", amount. split; [done |]. split; [by right |].
    by apply (price_amount_nonneg _ _ _ E).
Qed.

Lemma price_constraint_shape_witness :
  ∃ op amount, FOps {[ "$gte" := PInt 100 ]} = FOps {[ op := PInt amount ]} ∧
               (op = "$lte" ∨ op = "$gte") ∧ (0 ≤ amount)%Z.
Proof.
  exact (price_constraint_shape "flats over 100" [] _ _ eq_refl eq_refl).
Defined.

Lemma wanted_amenities_sublist (query : string) :
  wanted_amenities query `sublist_of` amenity_names.
Proof.
  unfold wanted_amenities, amenity_names. cbn zeta.
  destruct (str_in "pool" query), (str_in "gym" query), (str_in "parking" query);
    simpl; repeat (first [apply sublist_nil_l | apply sublist_skip | apply sublist_cons]).
Qed.

(** X11. The amenity constraint asks for all of a non-empty selection of
    "Swimming Pool", "Gym" and "Parking", listed in that fixed order and
    each at most once, in whatever order the query names them. *)
Theorem amenities_constraint_shape (q : string) (locs : list string)
    (f : gmap string fval) (c : fval) :
  build_filter q locs = Ok f →
  f !! "amenities" = Some c →
  ∃ l, c = FOps {[ "$all" := PList l ]} ∧ l ≠ [] ∧ l `sublist_of` amenity_names.
Proof.
  intros Hf Hc. destruct (build_filter_lookups q locs) as (f' & Hf' & _ & _ & _ & Ha).
  rewrite Hf in Hf'. injection Hf' as <-. rewrite Ha in Hc.
  pose proof (wanted_amenities_sublist (lower q)) as Hs.
  destruct (wanted_amenities (lower q)) as [|a l]; [done |].
  injection Hc as <-. by exists (a :: l).
Qed.

Lemma amenities_constraint_shape_witness :
  ∃ l, FOps {[ "$all" := PList ["Swimming Pool"; "Parking"] ]}
         = FOps {[ "$all" := PList l ]} ∧
       l ≠ [] ∧ l `sublist_of` amenity_names.
Proof.
  exact (amenities_constraint_shape "flat with parking and a pool" [] _ _
           eq_refl eq_refl).
Defined.

End ExtractionMore.

(** ** More on the semantic search *)

Section SemanticMore.

Context (env : Env).

Lemma py_eqb_refl (a : pyval) : py_eqb a a = true.
Proof.
  destruct a; simpl.
  - done.
  - apply Z.eqb_refl.
  - by apply Qeq_bool_iff.
  - apply String.eqb_refl.
  - by apply bool_decide_eq_true.
Qed.

Lemma key_eqb_refl (k : dedup_key) : key_eqb k k = true.
Proof. destruct k as [[[b l] p] a]. simpl. by rewrite !py_eqb_refl. Qed.

(** X12. The nearest neighbour is always emitted first, also when
    [top_k] is 0: the cap is tested after the append. *)
Theorem nearest_neighbour_always_first (q : string) (top_k : nat)
    (doc : Document) (score : Q) (rest : list (Document * Q)) :
  similarity_search_with_score env q (top_k * 2) = Ok ((doc, score) :: rest) →
  Forall (fun p => has_fields (metadata p.1)) ((doc, score) :: rest) →
  ∃ item out,
    chromadb_semantic_search env q top_k = Ok (item :: out) ∧
    annotate env (metadata doc) score = Ok item.
Proof.
  intros Hidx Hwf. apply Forall_cons in Hwf as [Hwf Hrest]. simpl in Hwf.
  unfold chromadb_semantic_search. rewrite Hidx.
  cbn [mbind result_bind dedup_loop].
  destruct (key_of_defined _ Hwf) as [key ->].
  destruct (annotate_defined env _ score Hwf) as [item Hitem]. simpl.
  rewrite Hitem. cbn [mbind result_bind mret result_ret app].
  destruct (top_k <=? length [item]); [by exists item, [] |].
  destruct (dedup_loop_spec env top_k rest Hrest [key] [item])
    as (kept & out & Hrun & _).
  exists item, out. by rewrite Hrun.
Qed.

Lemma dedup_loop_prefix (top_k : nat) (results : list (Document * Q)) :
  ∀ unique filtered out,
    dedup_loop env results top_k unique filtered = Ok out →
    ∃ more, out = filtered ++ more.
Proof.
  induction results as [|[doc score] rest IH]; intros unique filtered out.
  - intros [= <-]. exists []. by rewrite app_nil_r.
  - cbn [dedup_loop]. destruct (key_of (metadata doc)) as [key|]; [|done].
    cbn [mbind result_bind]. destruct (key_in key unique).
    + cbn [mbind result_bind mret result_ret].
      destruct (top_k <=? length filtered).
      * intros [= <-]. exists []. by rewrite app_nil_r.
      * apply IH.
    + destruct (annotate env (metadata doc) score) as [item|]; [|done].
      cbn [mbind result_bind mret result_ret].
      destruct (top_k <=? length (filtered ++ [item])).
      * intros [= <-]. by exists [item].
      * intros H. destruct (IH _ _ _ H) as [more ->].
        exists (item :: more). by rewrite <- app_assoc.
Qed.

Lemma dedup_loop_complete (top_k : nat) (results : list (Document * Q)) :
  ∀ unique filtered out,
    dedup_loop env results top_k unique filtered = Ok out →
    length out < top_k →
    ∀ doc score key, (doc, score) ∈ results → key_of (metadata doc) = Ok key →
      key_in key unique = true ∨
      ∃ item key', item ∈ out ∧ key_of item = Ok key' ∧ key_eqb key key' = true.
Proof.
  induction results as [|[doc0 score0] rest IH]; intros unique filtered out Hrun Hlen.
  { intros ? ? ? H. by apply elem_of_nil in H. }
  cbn [dedup_loop] in Hrun.
  destruct (key_of (metadata doc0)) as [key0|] eqn:Ek0; [|done].
  cbn [mbind result_bind] in Hrun.
  destruct (key_in key0 unique) eqn:Ein.
  - cbn [mbind result_bind mret result_ret] in Hrun.
    destruct (top_k <=? length filtered) eqn:Ecap.
    { injection Hrun as <-. apply Nat.leb_le in Ecap. lia. }
    intros doc score key [[= -> ->] | Hin]%elem_of_cons Hkey.
    + rewrite Ek0 in Hkey. injection Hkey as <-. by left.
    + by apply (IH _ _ _ Hrun Hlen doc score).
  - destruct (annotate env (metadata doc0) score0) as [item0|] eqn:Ea; [|done].
    cbn [mbind result_bind mret result_ret] in Hrun.
    destruct (top_k <=? length (filtered ++ [item0])) eqn:Ecap.
    { injection Hrun as <-. apply Nat.leb_le in Ecap. lia. }
    assert (item0 ∈ out) as Hitem0.
    { destruct (dedup_loop_prefix _ _ _ _ _ Hrun) as [more ->]. set_solver. }
    pose proof (annotate_key env _ _ _ Ea) as Hk0. rewrite Ek0 in Hk0.
    intros doc score key [[= -> ->] | Hin]%elem_of_cons Hkey.
    + rewrite Ek0 in Hkey. injection Hkey as <-.
      right. exists item0, key0. by rewrite key_eqb_refl.
    + destruct (IH _ _ _ Hrun Hlen doc score key Hin Hkey) as [Hu | Hr]; [|by right].
      simpl in Hu. apply orb_true_iff in Hu as [Hu | Hu]; [|by left].
      right. by exists item0, key0.
Qed.

(** X13. Only duplicates and the cap remove a neighbour: when the search
    returns fewer than [top_k] items, every neighbour the index returned
    has an item with an equal dedup key in the result. *)
Theorem below_cap_every_key_is_kept (q : string) (top_k : nat)
    (neighbours : list (Document * Q)) (out : list (gmap string pyval)) :
  similarity_search_with_score env q (top_k * 2) = Ok neighbours →
  chromadb_semantic_search env q top_k = Ok out →
  length out < top_k →
  ∀ doc score key, (doc, score) ∈ neighbours → key_of (metadata doc) = Ok key →
    ∃ item key', item ∈ out ∧ key_of item = Ok key' ∧ key_eqb key key' = true.
Proof.
  intros Hidx Hrun Hlen doc score key Hin Hkey.
  unfold chromadb_semantic_search in Hrun. rewrite Hidx in Hrun.
  cbn [mbind result_bind] in Hrun.
  destruct (dedup_loop_complete _ _ _ _ _ Hrun Hlen doc score key Hin Hkey)
    as [Hu | Hr]; done.
Qed.

End SemanticMore.

Lemma has_fields_all_check (l : list (Document * Q)) :
  forallb (fun p : Document * Q =>
             forallb (fun k => bool_decide (is_Some (metadata p.1 !! k)))
                     document_fields) l = true →
  Forall (fun p => has_fields (metadata p.1)) l.
Proof.
  rewrite forallb_forall. intros H. apply Forall_forall. intros p Hp.
  apply has_fields_check, H. by apply list_elem_of_In.
Qed.

Lemma nearest_neighbour_always_first_witness :
  ∃ item out doc score,
    chromadb_semantic_search two_flats "flat" 1 = Ok (item :: out) ∧
    annotate two_flats (metadata doc) score = Ok item.
Proof.
  assert (match similarity_search_with_score two_flats "flat" (1 * 2) with
          | Ok l =>
              forallb (fun p : Document * Q =>
                         forallb (fun k => bool_decide (is_Some (metadata p.1 !! k)))
                                 document_fields) l
          | Raise _ => false
          end = true) as H by (vm_compute; reflexivity).
  destruct (similarity_search_with_score two_flats "flat" (1 * 2))
    as [[|[doc score] rest]|] eqn:E; [| |discriminate H].
  - exfalso. vm_compute in E. discriminate E.
  - destruct (nearest_neighbour_always_first two_flats "flat" 1 doc score rest E
                (has_fields_all_check _ H))
      as (item & out & Hrun & Hitem).
    by exists item, out, doc, score.
Defined.

Lemma below_cap_every_key_is_kept_witness :
  ∃ out, chromadb_semantic_search two_flats "flat" 5 = Ok out ∧
    length out < 5 ∧
    ∀ doc score key,
      (doc, score) ∈ Mem.indexed [baner; baner; andheri]
                       [(21 # 50)%Q; (21 # 50)%Q; (3 # 4)%Q] →
      key_of (metadata doc) = Ok key →
      ∃ item key', item ∈ out ∧ key_of item = Ok key' ∧ key_eqb key key' = true.
Proof.
  assert (match chromadb_semantic_search two_flats "flat" 5 with
          | Ok out => length out <? 5
          | Raise _ => false
          end = true) as H by (vm_compute; reflexivity).
  destruct (chromadb_semantic_search two_flats "flat" 5) as [out|] eqn:E;
    [|discriminate H].
  apply Nat.ltb_lt in H. exists out. split; [reflexivity |]. split; [exact H |].
  exact (below_cap_every_key_is_kept two_flats "flat" 5 _ out eq_refl E H).
Defined.

(** ** More on the store searches *)

Section StoreSearches.

Context (env : Env).

(** X14. The filter search fails only when the store does: the filter is
    always built, and the search is the store's answer to it. *)
Theorem filter_search_is_the_store_answer (q : string) (locs : list string) :
  ∃ f, build_filter q locs = Ok f ∧
       filter_based_search env q locs = find env f.
Proof.
  destruct (build_filter_lookups q locs) as (f & Hf & _).
  exists f. split; [done |]. unfold filter_based_search. by rewrite Hf.
Qed.

(** With nothing extracted the filter is empty. *)
Lemma empty_filter_when_nothing_found (q : string) (locs : list string) :
  re_search_bhk (lower q) = None →
  truthy (extract_location_from_query (lower q) locs) = false →
  has_ceiling_word (lower q) = false →
  has_floor_word (lower q) = false →
  wanted_amenities (lower q) = [] →
  build_filter q locs = Ok ∅ ∧ filter_based_search env q locs = find env ∅.
Proof.
  intros Hb Hl Hc Hf Ha.
  assert (build_filter q locs = Ok ∅) as H.
  { unfold build_filter. cbn zeta. rewrite Hb.
    cbn [mbind result_bind mret result_ret]. rewrite Hl.
    unfold has_ceiling_word in Hc. unfold has_floor_word in Hf.
    by rewrite Hc, Hf, Ha. }
  split; [done |]. unfold filter_based_search. by rewrite H.
Qed.

(** X15. On ASCII text, a query with no bedroom pattern, no known
    location, no price word and no amenity keyword is searched with the
    empty filter: the store is asked for every record. *)
Theorem no_constraint_lists_everything (q : string) (locs : list string) :
  is_ascii q = true →
  all_ascii locs = true →
  re_search_bhk (lower q) = None →
  truthy (extract_location_from_query (lower q) locs) = false →
  has_ceiling_word (lower q) = false →
  has_floor_word (lower q) = false →
  wanted_amenities (lower q) = [] →
  build_filter q locs = Ok ∅ ∧ filter_based_search env q locs = find env ∅.
Proof. intros _ _. apply empty_filter_when_nothing_found. Qed.


End StoreSearches.

Lemma no_constraint_lists_everything_witness :
  build_filter "tell me about apartments with a view" ["Baner, Pune"] = Ok ∅ ∧
  filter_based_search two_flats "tell me about apartments with a view" ["Baner, Pune"]
    = find two_flats ∅.
Proof.
  apply no_constraint_lists_everything; reflexivity.
Defined.


(** ** More on the handler and the envelope *)

Section HandlerMore.

Context (env : Env).

(** X17. The handler never returns an empty list. Its first item is typed
    [greeting], [no_results] or [header]; a greeting or an apology stands
    alone, a header is followed by the record items, which have [details]
    and no [type]. *)
Theorem handler_list_shape (q : string) (top_k : nat)
    (matches : list (gmap string pyobj)) :
  handle_user_query env q top_k = Ok matches →
  ∃ first rest t,
    matches = first :: rest ∧
    first !! "type" = Some (PVal (PStr t)) ∧
    ((t = "greeting" ∧ rest = []) ∨ (t = "no_results" ∧ rest = []) ∨
     (t = "header" ∧ rest ≠ [])) ∧
    Forall (fun m => m !! "type" = None ∧ ∃ d, m !! "details" = Some (PDict d)) rest.
Proof.
  intros H. destruct (handle_user_query_shape env _ _ _ H)
    as (locs & _ & [[_ ->] | (_ & rs & _ & [[_ ->] | (Hrs & items & Hi & ->)])]).
  - exists greeting_item, [], "greeting". repeat split; [by left | constructor].
  - exists no_results_item, [], "no_results".
    repeat split; [by right; left | constructor].
  - eexists _, items, "header". split; [done |]. split; [done |].
    apply enrich_all_items in Hi. split.
    + right. right. split; [done |]. intros ->.
      apply Forall2_nil_inv_r in Hi. done.
    + clear -Hi. induction Hi as [|r item rs items Hr _ IH]; constructor; [|done].
      destruct (enrich_keys env _ _ Hr) as (Hd & _ & Ht). eauto.
Qed.

(** X18. A query classified [greeting] is answered without any retrieval:
    the envelope is the fixed greeting, whatever the store and the index
    would return. *)
Theorem greeting_envelope (q : string) (locs : list string) :
  get_unique_locations env = Ok locs →
  classify_user_query q locs = "greeting" →
  get_chat_response env q =
    Ok {| status := "greeting";
          message := Some (PVal (PStr greeting_summary));
          query := None; results := [] |}.
Proof.
  intros Hl Hg. unfold get_chat_response, handle_user_query.
  rewrite Hl. cbn [mbind result_bind]. rewrite Hg. reflexivity.
Qed.

(** X19. The envelope's status is [greeting] or [success]: the
    [no_results] status is never produced. *)
Theorem status_is_greeting_or_success (q : string) (e : Envelope) :
  get_chat_response env q = Ok e →
  status e = "greeting" ∨ status e = "success".
Proof.
  unfold get_chat_response.
  destruct (handle_user_query env q 5) as [matches|] eqn:E; [|done].
  cbn [mbind result_bind]. destruct matches as [|first rest].
  - by apply handle_user_query_nonempty in E.
  - destruct (is_greeting first).
    + destruct (getitem first "summary"); cbn [mbind result_bind mret result_ret];
        [|done]. intros [= <-]. by left.
    + destruct (result_items env (first :: rest));
        cbn [mbind result_bind mret result_ret]; [|done].
      intros [= <-]. by right.
Qed.

Lemma result_items_length (ms rs : list (gmap string pyobj)) :
  result_items env ms = Ok rs → length rs = length ms.
Proof.
  intros H. apply result_items_each in H. symmetry. by eapply Forall2_length.
Qed.

(** X20. A [success] envelope echoes the query and has one result more
    than the retrieval returned records: the header, or the apology when
    there was no record, is a result item like the others. *)
Theorem success_counts_the_header (q : string) (e : Envelope) :
  get_chat_response env q = Ok e →
  status e = "success" →
  query e = Some q ∧
  ∃ locs rs,
    get_unique_locations env = Ok locs ∧
    retrieve env (classify_user_query q locs) q locs 5 = Ok rs ∧
    length (results e) = S (length rs).
Proof.
  intros He Hs. split.
  { revert He Hs. unfold get_chat_response.
    destruct (handle_user_query env q 5) as [[|first rest]|]; [| |done].
    - by intros [= <-].
    - cbn [mbind result_bind]. destruct (is_greeting first).
      + destruct (getitem first "summary"); cbn [mbind result_bind mret result_ret];
          [|done]. by intros [= <-].
      + destruct (result_items env (first :: rest));
          cbn [mbind result_bind mret result_ret]; [|done].
        by intros [= <-]. }
  destruct (get_chat_response_success env q e He Hs) as (ms & Hms & Hrs).
  apply result_items_length in Hrs. rewrite Hrs.
  destruct (handle_user_query_shape env _ _ _ Hms)
    as (locs & Hl & [[Hg ->] | (_ & rs & Hr & [[-> ->] | (_ & items & Hi & ->)])]).
  - exfalso. revert He. unfold get_chat_response. rewrite Hms.
    cbn [mbind result_bind]. intros [= <-]. done.
  - by exists locs, [].
  - exists locs, rs. split; [done |]. split; [done |].
    apply enrich_all_items, Forall2_length in Hi. simpl. by rewrite Hi.
Qed.

(** X21. No failure of the store or of the index is caught: when the
    locations cannot be fetched, or when the selected retrieval fails,
    [get_chat_response] fails with the same exception. *)
Theorem collaborator_failures_propagate (q : string) (err : exn) :
  (aggregate_locations env = Raise err → get_chat_response env q = Raise err) ∧
  (∀ locs, get_unique_locations env = Ok locs →
     classify_user_query q locs ≠ "greeting" →
     retrieve env (classify_user_query q locs) q locs 5 = Raise err →
     get_chat_response env q = Raise err).
Proof.
  split.
  - intros H. unfold get_chat_response, handle_user_query, get_unique_locations.
    by rewrite H.
  - intros locs Hl Hg Hr. unfold get_chat_response, handle_user_query.
    rewrite Hl. cbn [mbind result_bind].
    destruct (String.eqb_spec (classify_user_query q locs) "greeting"); [done |].
    by rewrite Hr.
Qed.

(** X22. The [details] of a record item always have the five fields, and
    a field the retrieved item lacks is [None] there. *)
Theorem details_have_five_fields (item : gmap string pyval)
    (enriched : gmap string pyobj) :
  enrich env item = Ok enriched →
  ∃ d, enriched !! "details" = Some (PDict d) ∧
       (∀ k, is_Some (d !! k) ↔ k ∈ document_fields) ∧
       (∀ k, k ∈ document_fields → item !! k = None → d !! k = Some PNone).
Proof.
  intros H. exists (details_of item).
  split; [by apply (enrich_keys env _ _ H) |]. split.
  - intros k. split.
    + unfold details_of. intros [v Hv].
      repeat (rewrite lookup_insert in Hv; case_decide;
              [subst k; apply (bool_decide_unpack _); by vm_compute |]).
      by rewrite lookup_empty in Hv.
    + intros Hk. rewrite (details_of_lookup _ _ Hk). by eexists.
  - intros k Hk Hnone. rewrite (details_of_lookup _ _ Hk). unfold get.
    by rewrite Hnone.
Qed.

End HandlerMore.

(** ** Documents and locations *)

Section DocumentsAndLocations.

Context (env : Env).

(** X23. The metadata of an indexed document has exactly six keys, the
    five fields and [city]; its amenities are one string and its city is
    a lowercase string. *)
Theorem document_metadata_shape (apartment : gmap string pyval) (doc : Document) :
  create_document env apartment = Ok doc →
  (∀ k, is_Some (metadata doc !! k) ↔ k ∈ document_fields ++ ["city"]) ∧
  (∃ s, metadata doc !! "amenities" = Some (PStr s)) ∧
  (∃ c, metadata doc !! "city" = Some (PStr c) ∧ lower c = c).
Proof.
  unfold create_document. destruct (join_amenities _) as [amenities|]; [|done].
  cbn [mbind result_bind].
  destruct (city_of _) as [city|] eqn:Ec; [|done].
  cbn [mbind result_bind mret result_ret]. intros [= <-]. cbn [metadata].
  split; [|split].
  - intros k. split.
    + intros [v Hv].
      repeat (rewrite lookup_insert in Hv; case_decide;
              [subst k; apply (bool_decide_unpack _); by vm_compute |]).
      by rewrite lookup_empty in Hv.
    + unfold document_fields. simpl. rewrite !elem_of_cons, elem_of_nil.
      intros [-> | [-> | [-> | [-> | [-> | [-> | []]]]]]];
        eexists; by simplify_map_eq.
  - exists amenities. by simplify_map_eq.
  - exists city. split; [by simplify_map_eq |].
    unfold city_of in Ec. destruct (py_truthy _).
    + destruct (get apartment "location" _); try done.
      injection Ec as <-. apply lower_idem.
    + by injection Ec as <-.
Qed.

Lemma create_langchain_documents_each (data : list (gmap string pyval))
    (docs : list Document) :
  create_langchain_documents env data = Ok docs →
  Forall2 (fun r d => create_document env r = Ok d) data docs.
Proof.
  revert docs. induction data as [|r data IH]; intros docs; simpl.
  - intros [= <-]. constructor.
  - destruct (create_document env r) as [d|] eqn:E; [|done].
    cbn [mbind result_bind].
    destruct (create_langchain_documents env data) as [ds|]; [|done].
    cbn [mbind result_bind mret result_ret]. intros [= <-].
    constructor; [done | by apply IH].
Qed.

(** X24. The index is built of all the records or not at all: a build
    that succeeds yields one document per record, in the order of the
    records, and one record whose amenities are [None] or a number makes
    the whole build fail. *)
Theorem index_build_all_or_nothing (data : list (gmap string pyval)) :
  (∀ docs, create_langchain_documents env data = Ok docs →
     length docs = length data ∧
     Forall2 (fun r d => create_document env r = Ok d) data docs) ∧
  (∀ r v, r ∈ data → r !! "amenities" = Some v →
     v = PNone ∨ (∃ n, v = PInt n) ∨ (∃ x, v = PFloat x) →
     ∃ err, create_langchain_documents env data = Raise err).
Proof.
  split.
  - intros docs H. apply create_langchain_documents_each in H.
    split; [|done]. symmetry. by eapply Forall2_length.
  - intros r v Hin Hv Hnot.
    destruct (create_langchain_documents env data) as [docs|err] eqn:E;
      [|by exists err].
    exfalso. apply create_langchain_documents_each in E.
    apply list_elem_of_lookup in Hin as [i Hi].
    destruct (Forall2_lookup_l _ _ _ _ _ E Hi) as (d & _ & Hd).
    unfold create_document, get in Hd. rewrite Hv in Hd. simpl in Hd.
    by destruct Hnot as [-> | [[n ->] | [x ->]]].
Qed.

(** X25. No known location is the empty string, so a location the
    resolver returns from them is never empty: the test [if location]
    fails only when nothing was resolved. *)
Theorem resolved_location_is_truthy (q : string) (locs : list string) :
  get_unique_locations env = Ok locs →
  Forall (fun loc => loc ≠ "") locs ∧
  truthy (extract_location_from_query q locs)
    = bool_decide (is_Some (extract_location_from_query q locs)).
Proof.
  unfold get_unique_locations.
  destruct (aggregate_locations env) as [groups|]; [|done].
  cbn [mbind result_bind mret result_ret]. intros [= <-].
  assert (Forall (fun loc => loc ≠ "")
            (omap (M := list) (fun loc : option string => if truthy loc then loc else None)
                  groups)) as Hne.
  { apply Forall_forall. intros loc Hloc.
    apply list_elem_of_omap in Hloc as (o & _ & Ho).
    destruct o as [s|]; [|done]. simpl in Ho. destruct s; [done |].
    injection Ho as <-. done. }
  split; [done |].
  destruct (extract_location_from_query q _) as [r|] eqn:E; [|done].
  destruct (extract_location_sound _ _ _ E) as [Hr _].
  rewrite Forall_forall in Hne. specialize (Hne r Hr).
  by destruct r.
Qed.

End DocumentsAndLocations.

(** ** The further properties on concrete data *)

Lemma handler_list_shape_witness :
  ∃ first rest t,
    handle_user_query two_flats "flat" 5 = Ok (first :: rest) ∧
    first !! "type" = Some (PVal (PStr t)).
Proof.
  assert (match handle_user_query two_flats "flat" 5 with
          | Ok _ => true
          | Raise _ => false
          end = true) as H by (vm_compute; reflexivity).
  destruct (handle_user_query two_flats "flat" 5) as [matches|] eqn:E;
    [|discriminate H].
  destruct (handler_list_shape two_flats "flat" 5 matches E)
    as (first & rest & t & -> & Ht & _ & _).
  exists first, rest, t. split; [reflexivity | exact Ht].
Defined.

Lemma greeting_envelope_witness :
  get_chat_response two_flats "Hello there" =
    Ok {| status := "greeting";
          message := Some (PVal (PStr greeting_summary));
          query := None; results := [] |}.
Proof.
  apply (greeting_envelope two_flats "Hello there"
           ["Baner, Pune"; "Andheri, Mumbai"]); reflexivity.
Defined.

Lemma status_is_greeting_or_success_witness :
  ∃ e, get_chat_response empty_env "flat" = Ok e ∧
       (status e = "greeting" ∨ status e = "success").
Proof.
  destruct (get_chat_response empty_env "flat") as [e|] eqn:E;
    [|exfalso; vm_compute in E; discriminate E].
  exists e. split; [reflexivity |].
  exact (status_is_greeting_or_success empty_env "flat" e E).
Defined.

Lemma success_counts_the_header_witness :
  ∃ e, get_chat_response two_flats "cheapest flat" = Ok e ∧
       status e = "success" ∧ query e = Some "cheapest flat".
Proof.
  assert (match get_chat_response two_flats "cheapest flat" with
          | Ok e => String.eqb (status e) "success"
          | Raise _ => false
          end = true) as H by (vm_compute; reflexivity).
  destruct (get_chat_response two_flats "cheapest flat") as [e|] eqn:E;
    [|discriminate H].
  apply String.eqb_eq in H. exists e. split; [reflexivity |]. split; [exact H |].
  exact (proj1 (success_counts_the_header two_flats "cheapest flat" e E H)).
Defined.

Lemma success_scores_are_zero_witness :
  ∃ e, get_chat_response two_flats "flat" = Ok e ∧
       status e = "success" ∧
       Forall (fun item =>
                 item !! "similarity_score" = Some (PVal (PFloat (py_round 0 3))))
              (results e).
Proof.
  assert (match get_chat_response two_flats "flat" with
          | Ok e => String.eqb (status e) "success"
          | Raise _ => false
          end = true) as H by (vm_compute; reflexivity).
  destruct (get_chat_response two_flats "flat") as [e|] eqn:E; [|discriminate H].
  apply String.eqb_eq in H. exists e. split; [reflexivity |]. split; [exact H |].
  exact (success_scores_are_zero two_flats "flat" e E H).
Defined.

Lemma collaborator_failures_propagate_witness :
  get_chat_response store_down "flat" = Raise StoreUnavailable ∧
  get_chat_response index_down "flat" = Raise StoreUnavailable.
Proof.
  split.
  - exact (proj1 (collaborator_failures_propagate store_down "flat" StoreUnavailable)
                 eq_refl).
  - refine (proj2 (collaborator_failures_propagate index_down "flat" StoreUnavailable)
                  ["Baner, Pune"; "Andheri, Mumbai"] eq_refl _ eq_refl).
    discriminate.
Defined.

Lemma details_have_five_fields_witness :
  ∃ enriched d,
    enrich two_flats {[ "bedrooms" := PInt 2 ]} = Ok enriched ∧
    enriched !! "details" = Some (PDict d) ∧
    d !! "price" = Some PNone.
Proof.
  assert (match enrich two_flats {[ "bedrooms" := PInt 2 ]} with
          | Ok _ => true
          | Raise _ => false
          end = true) as H by (vm_compute; reflexivity).
  destruct (enrich two_flats {[ "bedrooms" := PInt 2 ]}) as [enriched|] eqn:E;
    [|discriminate H].
  destruct (details_have_five_fields two_flats _ enriched E) as (d & Hd & _ & Hnone).
  exists enriched, d. split; [reflexivity |]. split; [exact Hd |].
  apply Hnone; [apply (bool_decide_unpack _); by vm_compute | reflexivity].
Defined.

Lemma document_metadata_shape_witness :
  ∃ doc, create_document two_flats baner = Ok doc ∧
         ∃ c, metadata doc !! "city" = Some (PStr c) ∧ lower c = c.
Proof.
  destruct (create_document two_flats baner) as [doc|] eqn:E;
    [|exfalso; vm_compute in E; discriminate E].
  exists doc. split; [reflexivity |].
  exact (proj2 (proj2 (document_metadata_shape two_flats baner doc E))).
Defined.

Lemma index_build_all_or_nothing_witness :
  ∃ err, create_langchain_documents two_flats
           [baner; <["amenities" := PNone]> andheri] = Raise err.
Proof.
  apply (proj2 (index_build_all_or_nothing two_flats
                  [baner; <["amenities" := PNone]> andheri])
               (<["amenities" := PNone]> andheri) PNone).
  - apply list_elem_of_In. simpl. tauto.
  - reflexivity.
  - by left.
Defined.

Lemma resolved_location_is_truthy_witness :
  truthy (extract_location_from_query "flat in baner, pune"
            ["Baner, Pune"; "Andheri, Mumbai"]) = true.
Proof.
  rewrite (proj2 (resolved_location_is_truthy two_flats "flat in baner, pune"
                    ["Baner, Pune"; "Andheri, Mumbai"] eq_refl)).
  reflexivity.
Defined.
